(** * Neon Motion Drum: the motion detector and the synth drum engine

    A shallow embedding of [motion.js] (class [MotionDetector]) and of
    [audio.js] (class [SynthDrums]), and the properties of the two engines.

    Conventions of the embedding.
    - A JavaScript object with mutable fields is a record; a method is a
      function from the record (and what the platform hands to the call) to
      a completion and the record afterwards.
    - Array indices, pixel coordinates and grid dimensions are [nat];
      [Date.now()], [threshold] and [cooldownMs] are [Z].
    - Brightness values are JavaScript Numbers.  They are computed here in
      exact rational arithmetic ([Qc]); binary64 rounding is not part of the
      model.  The two agree wherever the doubles are exact, in particular on
      frames of one colour per cell.
    - What the browser decides (the clock, the readiness of the video, the
      pixels a draw produces, an exception of the canvas) is an explicit
      argument of the call. *)

From Stdlib Require Import ZArith QArith Qcanon Qcabs Qround Strings.String Strings.Byte.
From Stdlib Require Import Lqa.
From Stdlib Require Import Sorting.Sorted.
From stdpp Require Import base tactics option list numbers sorting.

Set Default Proof Using "Type".

(** ** Completions and the effect monad *)

(** What a JavaScript exception carries is never inspected by the code
    under study; its name is kept for the record. *)
Inductive JsError : Type :=
| InvalidStateError
| SecurityError
| TypeError.

Inductive Completion (A : Type) : Type :=
| Normal (a : A)
| Thrown (e : JsError).
Arguments Normal {A} a.
Arguments Thrown {A} e.

Definition Eff (S A : Type) : Type := S → Completion A * S.

Definition eff_ret {S A} (a : A) : Eff S A := λ s, (Normal a, s).

Definition eff_bind {S A B} (k : A → Eff S B) (m : Eff S A) : Eff S B :=
  λ s, match m s with
       | (Normal a, s') => k a s'
       | (Thrown e, s') => (Thrown e, s')
       end.

Definition throw {S A} (e : JsError) : Eff S A := λ s, (Thrown e, s).

(** [try { body } catch (error) { handler }] *)
Definition try_catch {S A} (body : Eff S A) (handler : JsError → Eff S A) : Eff S A :=
  λ s, match body s with
       | (Normal a, s') => (Normal a, s')
       | (Thrown e, s') => handler e s'
       end.

Definition get_state {S} : Eff S S := λ s, (Normal s, s).
Definition modify {S} (f : S → S) : Eff S unit := λ s, (Normal tt, f s).

Global Instance Eff_ret {S} : MRet (Eff S) := λ A, @eff_ret S A.
Global Instance Eff_bind {S} : MBind (Eff S) := λ A B, @eff_bind S A B.

(** ** Numbers *)

Definition Qc_of_nat (n : nat) : Qc := Qc_of_Z (Z.of_nat n).

(** A channel of a [Uint8ClampedArray] as a Number. *)
Definition Qc_of_byte (b : byte) : Qc := Qc_of_Z (Z.of_N (Byte.to_N b)).

(** [Math.round]: the nearest integer, halves upwards. *)
Definition Math_round (x : Qc) : Z := Qfloor (x + Q2Qc (1 # 2))%Qc.

(** [Math.max] and [Math.min] on Numbers. *)
Definition Qc_max (a b : Qc) : Qc := if decide (a ≤ b)%Qc then b else a.
Definition Qc_min (a b : Qc) : Qc := if decide (a ≤ b)%Qc then a else b.

(** [a || dflt] on a number that may be missing: [undefined] and [0] are
    falsy. *)
Definition or_nat (a : option nat) (dflt : nat) : nat :=
  match a with
  | Some (S n) => S n
  | _ => dflt
  end.

Definition or_Z (a : option Z) (dflt : Z) : Z :=
  match a with
  | Some 0%Z | None => dflt
  | Some v => v
  end.

Module Motion.

(** ** The data of the detector *)

(** [ImageData]: [data] is the flat RGBA array, four bytes a pixel, rows
    first.  [getImageData(0, 0, w, h)] returns [4 * w * h] bytes, so the
    detector reads inside the array; [channel] gives [0] outside it. *)
Record ImageData : Type := {
  data : list byte;
  iwidth : nat;
  iheight : nat
}.

Definition channel (data : list byte) (idx : nat) : Qc :=
  match data !! idx with
  | Some b => Qc_of_byte b
  | None => 0%Qc
  end.

Record Rect : Type := { rx : Z; ry : Z; rw : Z; rh : Z }.

(** One [drawImage] as the canvas receives it: the rectangle of the source
    that is sampled, the destination rectangle, and the horizontal scale of
    the current transform. *)
Record DrawCall : Type := {
  source : Rect;
  dest : Rect;
  xscale : Z
}.

(** A 2D context: the current horizontal scale, the stack of [save], and
    the last image drawn. *)
Record Context2D : Type := {
  scaleX : Z;
  saved : list Z;
  lastDraw : option DrawCall
}.

(** The intrinsic size of the bound [<video>]. *)
Record Video : Type := {
  videoWidth : nat;
  videoHeight : nat
}.

(** What [drawDebug] paints for one cell. *)
Record DebugCell : Type := {
  dborder : Qc * Qc * Qc * Qc;
  dfilled : bool;
  dlabel : Z
}.

Record DebugSurface : Type := {
  dimage : option ImageData;
  dcells : list DebugCell
}.

Record MotionDetector : Type := {
  width : nat;
  height : nat;
  cols : nat;
  rows : nat;
  cellCount : nat;
  threshold : Z;
  cooldownMs : Z;
  previousBrightness : list Qc;
  cooldowns : list Z;
  ctx : option Context2D;
  video : option Video;
  debugCtx : option DebugSurface
}.

Definition set_threshold (v : Z) (d : MotionDetector) : MotionDetector :=
  {| width := width d; height := height d; cols := cols d; rows := rows d;
     cellCount := cellCount d; threshold := v; cooldownMs := cooldownMs d;
     previousBrightness := previousBrightness d; cooldowns := cooldowns d;
     ctx := ctx d; video := video d; debugCtx := debugCtx d |}.

Definition set_cooldownMs (v : Z) (d : MotionDetector) : MotionDetector :=
  {| width := width d; height := height d; cols := cols d; rows := rows d;
     cellCount := cellCount d; threshold := threshold d; cooldownMs := v;
     previousBrightness := previousBrightness d; cooldowns := cooldowns d;
     ctx := ctx d; video := video d; debugCtx := debugCtx d |}.

Definition set_previousBrightness (l : list Qc) (d : MotionDetector) : MotionDetector :=
  {| width := width d; height := height d; cols := cols d; rows := rows d;
     cellCount := cellCount d; threshold := threshold d; cooldownMs := cooldownMs d;
     previousBrightness := l; cooldowns := cooldowns d;
     ctx := ctx d; video := video d; debugCtx := debugCtx d |}.

Definition set_cooldowns (l : list Z) (d : MotionDetector) : MotionDetector :=
  {| width := width d; height := height d; cols := cols d; rows := rows d;
     cellCount := cellCount d; threshold := threshold d; cooldownMs := cooldownMs d;
     previousBrightness := previousBrightness d; cooldowns := l;
     ctx := ctx d; video := video d; debugCtx := debugCtx d |}.

Definition set_ctx (c : option Context2D) (d : MotionDetector) : MotionDetector :=
  {| width := width d; height := height d; cols := cols d; rows := rows d;
     cellCount := cellCount d; threshold := threshold d; cooldownMs := cooldownMs d;
     previousBrightness := previousBrightness d; cooldowns := cooldowns d;
     ctx := c; video := video d; debugCtx := debugCtx d |}.

Definition set_video (v : option Video) (d : MotionDetector) : MotionDetector :=
  {| width := width d; height := height d; cols := cols d; rows := rows d;
     cellCount := cellCount d; threshold := threshold d; cooldownMs := cooldownMs d;
     previousBrightness := previousBrightness d; cooldowns := cooldowns d;
     ctx := ctx d; video := v; debugCtx := debugCtx d |}.

Definition set_debugCtx (s : option DebugSurface) (d : MotionDetector) : MotionDetector :=
  {| width := width d; height := height d; cols := cols d; rows := rows d;
     cellCount := cellCount d; threshold := threshold d; cooldownMs := cooldownMs d;
     previousBrightness := previousBrightness d; cooldowns := cooldowns d;
     ctx := ctx d; video := video d; debugCtx := s |}.

(** The [options] argument of the constructor; a missing key is [None]. *)
Record Options : Type := {
  o_width : option nat;
  o_height : option nat;
  o_cols : option nat;
  o_rows : option nat;
  o_threshold : option Z;
  o_cooldownMs : option Z
}.

Definition no_options : Options :=
  {| o_width := None; o_height := None; o_cols := None; o_rows := None;
     o_threshold := None; o_cooldownMs := None |}.

(** [constructor(options = {})] *)
Definition new (options : Options) : MotionDetector :=
  let width := or_nat (o_width options) 64 in
  let height := or_nat (o_height options) 48 in
  let cols := or_nat (o_cols options) 3 in
  let rows := or_nat (o_rows options) 3 in
  let cellCount := cols * rows in
  {| width := width; height := height; cols := cols; rows := rows;
     cellCount := cellCount;
     threshold := or_Z (o_threshold options) 20;
     cooldownMs := or_Z (o_cooldownMs options) 250;
     previousBrightness := replicate cellCount 0%Qc;
     cooldowns := replicate cellCount 0%Z;
     ctx := None; video := None; debugCtx := None |}.

Definition fresh_context : Context2D :=
  {| scaleX := 1; saved := []; lastDraw := None |}.

(** [init(video, debugCanvas = null)] *)
Definition init (v : Video) (debugCanvas : bool) (d : MotionDetector) : MotionDetector :=
  let d := set_video (Some v) d in
  let d := set_ctx (Some fresh_context) d in
  if debugCanvas
  then set_debugCtx (Some {| dimage := None; dcells := [] |}) d
  else d.

(** ** What the platform hands to one call of [detect] *)

(** The outcome of drawing the video and reading the canvas back: either
    call may throw, otherwise [getImageData] returns the pixels. *)
Inductive FrameRead : Type :=
| DrawThrows (e : JsError)
| ReadThrows (e : JsError)
| Pixels (img : ImageData).

Record Platform : Type := {
  clock : Z;            (* Date.now() *)
  readyState : nat;     (* video.readyState *)
  frame : FrameRead
}.

(** [HTMLMediaElement.HAVE_CURRENT_DATA] *)
Definition HAVE_CURRENT_DATA : nat := 2.

(** ** The canvas calls of [detect] *)

Definition with_ctx (f : Context2D → Context2D) : Eff MotionDetector unit :=
  modify (λ d, set_ctx (f <$> ctx d) d).

(** [ctx.save()] *)
Definition ctx_save : Eff MotionDetector unit :=
  with_ctx (λ c, {| scaleX := scaleX c; saved := scaleX c :: saved c;
                    lastDraw := lastDraw c |}).

(** [ctx.restore()]: pops the saved state; with nothing saved it does
    nothing. *)
Definition ctx_restore : Eff MotionDetector unit :=
  with_ctx (λ c, match saved c with
                 | [] => c
                 | sx :: rest => {| scaleX := sx; saved := rest; lastDraw := lastDraw c |}
                 end).

(** [ctx.scale(sx, 1)] *)
Definition ctx_scale (sx : Z) : Eff MotionDetector unit :=
  with_ctx (λ c, {| scaleX := (scaleX c * sx)%Z; saved := saved c;
                    lastDraw := lastDraw c |}).

(** [ctx.drawImage(image, dx, dy, dw, dh)], the form with five arguments:
    the whole image is the source rectangle. *)
Definition ctx_drawImage (p : Platform) (dx dy dw dh : Z) : Eff MotionDetector unit :=
  match frame p with
  | DrawThrows e => throw e
  | _ =>
    d ← get_state;
    let src := match video d with
               | Some v => {| rx := 0; ry := 0;
                              rw := Z.of_nat (videoWidth v);
                              rh := Z.of_nat (videoHeight v) |}
               | None => {| rx := 0; ry := 0; rw := 0; rh := 0 |}
               end in
    with_ctx (λ c, {| scaleX := scaleX c; saved := saved c;
                      lastDraw := Some {| source := src;
                                          dest := {| rx := dx; ry := dy; rw := dw; rh := dh |};
                                          xscale := scaleX c |} |})
  end.

(** [ctx.getImageData(0, 0, width, height)] *)
Definition ctx_getImageData (p : Platform) : Eff MotionDetector ImageData :=
  match frame p with
  | DrawThrows e | ReadThrows e => throw e
  | Pixels img => mret img
  end.

(** ** Brightness of a cell *)

(** The two nested loops of [getRegionBrightness], accumulating
    [totalBrightness] and [pixelCount]. *)
Definition sumRegion (imageData : ImageData)
    (startX startY cellW cellH : nat) : Qc * nat :=
  foldl (λ acc y,
    foldl (λ '(totalBrightness, pixelCount) x,
      let idx := (y * iwidth imageData + x) * 4 in
      let brightness :=
        ((channel (data imageData) idx
          + channel (data imageData) (idx + 1)
          + channel (data imageData) (idx + 2)) / Qc_of_Z 3)%Qc in
      ((totalBrightness + brightness)%Qc, S pixelCount))
      acc (seq startX cellW))
    (0%Qc, 0) (seq startY cellH).

(** [getRegionBrightness(imageData, cellIndex)] *)
Definition getRegionBrightness (d : MotionDetector) (imageData : ImageData)
    (cellIndex : nat) : Qc :=
  let col := cellIndex mod cols d in
  let row := cellIndex / cols d in
  let cellW := width d / cols d in
  let cellH := height d / rows d in
  let startX := col * cellW in
  let startY := row * cellH in
  let '(totalBrightness, pixelCount) := sumRegion imageData startX startY cellW cellH in
  if decide (0 < pixelCount) then (totalBrightness / Qc_of_nat pixelCount)%Qc else 0%Qc.

(** ** One pass of detection *)

(** [this.previousBrightness[i]] and [this.cooldowns[i]].  Both arrays are
    created with [cellCount] entries and only overwritten, so the reads of
    [detect] are inside them. *)
Definition prevAt (d : MotionDetector) (i : nat) : Qc :=
  default 0%Qc (previousBrightness d !! i).
Definition cooldownAt (d : MotionDetector) (i : nat) : Z :=
  default 0%Z (cooldowns d !! i).

(** The body of the [for] loop of [detect] for cell [i]; [triggered] is
    the local array of the call.  The loop keeps [i] below [cellCount], the
    length of both arrays, so each write overwrites an entry. *)
Definition detectCell (imageData : ImageData) (now : Z)
    (acc : list nat * MotionDetector) (i : nat) : list nat * MotionDetector :=
  let '(triggered, d) := acc in
  let brightness := getRegionBrightness d imageData i in
  let diff := Qcabs (brightness - prevAt d i) in
  let '(triggered, d) :=
    if bool_decide (Qc_of_Z (threshold d) < diff)%Qc && bool_decide (cooldownAt d i < now)%Z
    then (triggered ++ [i],
          set_cooldowns (<[i := (now + cooldownMs d)%Z]> (cooldowns d)) d)
    else (triggered, d) in
  (triggered, set_previousBrightness (<[i := brightness]> (previousBrightness d)) d).

Definition detectLoop (imageData : ImageData) (now : Z) (d : MotionDetector)
    : list nat * MotionDetector :=
  foldl (detectCell imageData now) ([], d) (seq 0 (cellCount d)).

(** [drawDebug(imageData, triggered)]; the overlay uses the unrounded
    [width / cols] and [height / rows]. *)
Definition drawDebug (imageData : ImageData) (triggered : list nat)
    (d : MotionDetector) : DebugSurface :=
  let cellW := (Qc_of_nat (width d) / Qc_of_nat (cols d))%Qc in
  let cellH := (Qc_of_nat (height d) / Qc_of_nat (rows d))%Qc in
  {| dimage := Some imageData;
     dcells := (λ i,
        let col := i mod cols d in
        let row := i / cols d in
        let x := (Qc_of_nat col * cellW)%Qc in
        let y := (Qc_of_nat row * cellH)%Qc in
        {| dborder := (x, y, cellW, cellH);
           dfilled := bool_decide (i ∈ triggered);
           dlabel := Math_round (prevAt d i) |}) <$> seq 0 (cellCount d) |}.

(** The [try] block of [detect]. *)
Definition render (p : Platform) : Eff MotionDetector ImageData :=
  d ← get_state;
  ctx_save;;
  ctx_scale (-1);;
  ctx_drawImage p (- Z.of_nat (width d)) 0 (Z.of_nat (width d)) (Z.of_nat (height d));;
  ctx_restore;;
  ctx_getImageData p.

(** [detect()] *)
Definition detect (p : Platform) : Eff MotionDetector (list nat) :=
  d ← get_state;
  if bool_decide (video d = None ∨ ctx d = None) then mret [] else
  if bool_decide (readyState p < HAVE_CURRENT_DATA) then mret [] else
  let now := clock p in
  r ← try_catch (imageData ← render p; mret (Some imageData))
                (λ error, ctx_restore;; mret None);
  match r with
  | None => mret []
  | Some imageData =>
    d ← get_state;
    let '(triggered, d) := detectLoop imageData now d in
    modify (λ _, d);;
    (if debugCtx d is Some _
     then modify (set_debugCtx (Some (drawDebug imageData triggered d)))
     else mret tt);;
    mret triggered
  end.

(** [setThreshold(value)] *)
Definition setThreshold (value : Z) (d : MotionDetector) : MotionDetector :=
  set_threshold (Z.max 1 (Z.min 100 value)) d.

(** [setCooldown(ms)] *)
Definition setCooldown (ms : Z) (d : MotionDetector) : MotionDetector :=
  set_cooldownMs (Z.max 50 (Z.min 1000 ms)) d.

(** [getParams()] *)
Definition getParams (d : MotionDetector) : Z * Z * nat * nat * nat * nat :=
  (threshold d, cooldownMs d, width d, height d, cols d, rows d).

(** [reset()] *)
Definition reset (d : MotionDetector) : MotionDetector :=
  set_cooldowns (replicate (length (cooldowns d)) 0%Z)
    (set_previousBrightness (replicate (length (previousBrightness d)) 0%Qc) d).

(** The driving loop: one [detect] per tick, each with what the platform
    hands to it. *)
Fixpoint run (ticks : list Platform) (d : MotionDetector)
    : list (Completion (list nat)) * MotionDetector :=
  match ticks with
  | [] => ([], d)
  | p :: ticks =>
    let '(r, d) := detect p d in
    let '(rs, d) := run ticks d in
    (r :: rs, d)
  end.

(** ** Vocabulary of the statements *)

(** [Math.abs(brightness - this.previousBrightness[i])] for cell [i] of a
    frame. *)
Definition brightnessDelta (d : MotionDetector) (imageData : ImageData) (i : nat) : Qc :=
  Qcabs (getRegionBrightness d imageData i - prevAt d i).

(** The test of the [if] of the loop, read on the detector as it is when
    the call starts. *)
Definition cellFires (imageData : ImageData) (now : Z) (d : MotionDetector) (i : nat) : bool :=
  bool_decide (Qc_of_Z (threshold d) < brightnessDelta d imageData i)%Qc
  && bool_decide (cooldownAt d i < now)%Z.

(** The call gets past both guards and the [try] block and works on the
    frame [imageData]. *)
Definition processes (p : Platform) (d : MotionDetector) (imageData : ImageData) : Prop :=
  video d ≠ None ∧ ctx d ≠ None ∧ HAVE_CURRENT_DATA ≤ readyState p
  ∧ frame p = Pixels imageData.

(** Both state arrays have one entry per cell, as the constructor makes
    them. *)
Definition cells_wf (d : MotionDetector) : Prop :=
  length (previousBrightness d) = cellCount d ∧ length (cooldowns d) = cellCount d.

(** The cells a completed call reports. *)
Definition triggers (r : Completion (list nat)) : list nat :=
  match r with
  | Normal triggered => triggered
  | Thrown _ => []
  end.

(** [(data[idx] + data[idx + 1] + data[idx + 2]) / 3] for the pixel at
    column [x] of row [y]. *)
Definition pixelBrightness (imageData : ImageData) (xy : nat * nat) : Qc :=
  let idx := (xy.2 * iwidth imageData + xy.1) * 4 in
  ((channel (data imageData) idx
    + channel (data imageData) (idx + 1)
    + channel (data imageData) (idx + 2)) / Qc_of_Z 3)%Qc.

(** The pixels the two loops of [getRegionBrightness] visit for a cell,
    in the order of the visit. *)
Definition cellPixels (d : MotionDetector) (cellIndex : nat) : list (nat * nat) :=
  let col := cellIndex mod cols d in
  let row := cellIndex / cols d in
  let cellW := width d / cols d in
  let cellH := height d / rows d in
  let startX := col * cellW in
  let startY := row * cellH in
  y ← seq startY cellH; x ← seq startX cellW; [(x, y)].

Definition Qc_sum (l : list Qc) : Qc := foldr Qcplus 0%Qc l.

(** The rectangle of a [vw] by [vh] source that a centre crop to the
    aspect ratio of a [w] by [h] target keeps ([object-fit: cover]); it is
    what the detector is compared with, not a part of it. *)
Definition spec_centerCrop (vw vh w h : Z) : Rect :=
  if decide (vh * w < vw * h)%Z
  then let sw := (vh * w / h)%Z in
       {| rx := (vw - sw) / 2; ry := 0; rw := sw; rh := vh |}
  else let sh := (vw * h / w)%Z in
       {| rx := 0; ry := (vh - sh) / 2; rw := vw; rh := sh |}.

(** Two detectors with the same configuration. *)
Definition same_config (d d' : MotionDetector) : Prop :=
  width d' = width d ∧ height d' = height d ∧ cols d' = cols d ∧ rows d' = rows d
  ∧ cellCount d' = cellCount d ∧ threshold d' = threshold d
  ∧ cooldownMs d' = cooldownMs d.


(** ** Histories of a detector *)

(** One call of a method of the detector, with what the platform hands to
    it. *)
Inductive Call : Type :=
| Init (v : Video) (debugCanvas : bool)
| Detect (p : Platform)
| SetThreshold (value : Z)
| SetCooldown (ms : Z)
| Reset.

Definition call (d : MotionDetector) (c : Call) : MotionDetector :=
  match c with
  | Init v debugCanvas => init v debugCanvas d
  | Detect p => snd (detect p d)
  | SetThreshold value => setThreshold value d
  | SetCooldown ms => setCooldown ms d
  | Reset => reset d
  end.

(** The detector constructed with [options] after a sequence of calls. *)
Definition history (options : Options) (calls : list Call) : MotionDetector :=
  foldl call (new options) calls.

(** Two detectors with the same canvas and the same grid. *)
Definition same_grid (d d' : MotionDetector) : Prop :=
  width d' = width d ∧ height d' = height d ∧ cols d' = cols d ∧ rows d' = rows d
  ∧ cellCount d' = cellCount d.

(** A Number within the range of a colour channel. *)
Definition in_channel_range (x : Qc) : Prop := (0 ≤ x ≤ Qc_of_Z 255)%Qc.

(** The labels of the debug overlay: [Math.round] of each stored
    brightness. *)
Definition debugLabels (s : DebugSurface) : list Z := dlabel <$> dcells s.

End Motion.

Module Audio.

(** ** The audio graph *)

Inductive ContextState : Type := suspended | running | closed.

Inductive OscillatorType : Type := sine | triangle | square.
Inductive FilterType : Type := bandpass | highpass | lowpass.

(** An [AudioParam] as the recipes set it: [value = v], or
    [setValueAtTime(v0, t)] followed by
    [exponentialRampToValueAtTime(v1, t + over)]. *)
Inductive Param : Type :=
| Fixed (v : Qc)
| Ramp (v0 v1 over : Qc).

Record NoiseBuffer : Type := {
  nlength : N;
  nrate : N
}.

Inductive Source : Type :=
| Oscillator (type : OscillatorType) (frequency : Param)
| BufferSource (buffer : option NoiseBuffer).

Record Filter : Type := {
  ftype : FilterType;
  ffrequency : Param;
  fQ : Qc
}.

(** One chain of nodes, source first, its gain connected to the master
    gain; [cleanup] is the number of nodes [scheduleCleanup] disconnects
    when the source ends. *)
Record Chain : Type := {
  csource : Source;
  cfilters : list Filter;
  cgain : Param;
  cstart : Qc;
  cstop : Qc;
  cleanup : nat
}.

Record AudioContext : Type := {
  state : ContextState;
  currentTime : Qc;
  sampleRate : N;
  resumeCalls : nat;
  chains : list Chain
}.

Record SynthDrums : Type := {
  audioContext : option AudioContext;
  noiseBuffer : option NoiseBuffer;
  masterGain : option Qc
}.

(** The promise of the [async init()]. *)
Inductive InitStatus : Type :=
| NotStarted
| AwaitingResume
| Completed.

(** The engine together with what surrounds it: the console, and how far
    [init()] has come. *)
Record Session : Type := {
  drums : SynthDrums;
  console : list string;
  initStatus : InitStatus
}.

Definition dec (n : Z) (d : positive) : Qc := Q2Qc (n # d).

Definition set_drums (f : SynthDrums → SynthDrums) (s : Session) : Session :=
  {| drums := f (drums s); console := console s; initStatus := initStatus s |}.

Definition set_audioContext (a : option AudioContext) (x : SynthDrums) : SynthDrums :=
  {| audioContext := a; noiseBuffer := noiseBuffer x; masterGain := masterGain x |}.

Definition add_chain (c : Chain) (a : AudioContext) : AudioContext :=
  {| state := state a; currentTime := currentTime a; sampleRate := sampleRate a;
     resumeCalls := resumeCalls a; chains := chains a ++ [c] |}.

(** [audioContext.resume()]: the context runs once the platform has
    resumed it. *)
Definition resume (a : AudioContext) : AudioContext :=
  {| state := state a; currentTime := currentTime a; sampleRate := sampleRate a;
     resumeCalls := S (resumeCalls a); chains := chains a |}.

Definition resumed (a : AudioContext) : AudioContext :=
  {| state := match state a with suspended => running | st => st end;
     currentTime := currentTime a; sampleRate := sampleRate a;
     resumeCalls := resumeCalls a; chains := chains a |}.

(** [constructor()] *)
Definition new : Session :=
  {| drums := {| audioContext := None; noiseBuffer := None; masterGain := None |};
     console := [];
     initStatus := NotStarted |}.

(** [createNoiseBuffer(duration)]; the samples are random and left out. *)
Definition createNoiseBuffer (a : AudioContext) (duration : N) : NoiseBuffer :=
  {| nlength := (sampleRate a * duration)%N; nrate := sampleRate a |}.

(** [init()] up to its [await]: [st] and [rate] are the state and the
    sample rate of the context the platform creates. *)
Definition init (st : ContextState) (rate : N) (s : Session) : Session :=
  let a := {| state := st; currentTime := 0%Qc; sampleRate := rate;
              resumeCalls := 0; chains := [] |} in
  let nb := createNoiseBuffer a 2 in
  match st with
  | suspended =>
    {| drums := {| audioContext := Some (resume a); noiseBuffer := Some nb;
                   masterGain := Some (dec 8 10) |};
       console := console s;
       initStatus := AwaitingResume |}
  | _ =>
    {| drums := {| audioContext := Some a; noiseBuffer := Some nb;
                   masterGain := Some (dec 8 10) |};
       console := console s;
       initStatus := Completed |}
  end.

(** The platform has resumed the context: a pending [init()] returns. *)
Definition init_resumed (s : Session) : Session :=
  {| drums := set_audioContext (resumed <$> audioContext (drums s)) (drums s);
     console := console s;
     initStatus := match initStatus s with
                   | AwaitingResume => Completed
                   | st => st
                   end |}.

(** Time passes on the audio clock. *)
Definition advance (dt : Qc) (s : Session) : Session :=
  set_drums (λ x, set_audioContext
    ((λ a, {| state := state a;
              currentTime := match state a with
                             | running => (currentTime a + dt)%Qc
                             | _ => currentTime a
                             end;
              sampleRate := sampleRate a; resumeCalls := resumeCalls a;
              chains := chains a |}) <$> audioContext x) x) s.

(** ** The recipes *)

(** [gain.connect(this.masterGain)] of a finished chain: [connect(null)]
    is a [TypeError]. *)
Definition connect_master (c : Chain) : Eff Session unit := λ s,
  match masterGain (drums s) with
  | None => (Thrown TypeError, s)
  | Some _ =>
    (Normal tt,
     set_drums (λ x, set_audioContext (add_chain c <$> audioContext x) x) s)
  end.

Definition the_noise : Eff Session Source := λ s,
  (Normal (BufferSource (noiseBuffer (drums s))), s).

Definition playKick (time : Qc) : Eff Session unit :=
  connect_master
    {| csource := Oscillator sine (Ramp (Qc_of_Z 150) (Qc_of_Z 40) (dec 1 10));
       cfilters := [];
       cgain := Ramp (Qc_of_Z 1) (dec 1 100) (dec 4 10);
       cstart := time; cstop := (time + dec 4 10)%Qc; cleanup := 2 |}.

Definition playSnare (time : Qc) : Eff Session unit :=
  noise ← the_noise;
  connect_master
    {| csource := noise;
       cfilters := [{| ftype := bandpass; ffrequency := Fixed (Qc_of_Z 3000);
                       fQ := Qc_of_Z 1 |}];
       cgain := Ramp (dec 8 10) (dec 1 100) (dec 2 10);
       cstart := time; cstop := (time + dec 2 10)%Qc; cleanup := 3 |};;
  connect_master
    {| csource := Oscillator triangle (Ramp (Qc_of_Z 180) (Qc_of_Z 100) (dec 5 100));
       cfilters := [];
       cgain := Ramp (dec 7 10) (dec 1 100) (dec 1 10);
       cstart := time; cstop := (time + dec 1 10)%Qc; cleanup := 2 |}.

Definition playHihat (time : Qc) : Eff Session unit :=
  noise ← the_noise;
  connect_master
    {| csource := noise;
       cfilters := [{| ftype := highpass; ffrequency := Fixed (Qc_of_Z 7000);
                       fQ := Qc_of_Z 1 |}];
       cgain := Ramp (dec 4 10) (dec 1 100) (dec 8 100);
       cstart := time; cstop := (time + dec 8 100)%Qc; cleanup := 3 |}.

(** One burst of [playClap], the body of its loop. *)
Definition clapBurst (time : Qc) (burstCount : nat) (i : nat) : Eff Session unit :=
  let t := (time + Qc_of_nat i * dec 1 100)%Qc in
  noise ← the_noise;
  let volume := if decide (i = burstCount - 1) then dec 8 10 else dec 4 10 in
  connect_master
    {| csource := noise;
       cfilters := [{| ftype := bandpass; ffrequency := Fixed (Qc_of_Z 1500);
                       fQ := dec 5 10 |}];
       cgain := Ramp volume (dec 1 100) (dec 15 100);
       cstart := t; cstop := (t + dec 15 100)%Qc; cleanup := 3 |}.

Definition playClap (time : Qc) : Eff Session unit :=
  let burstCount := 4 in
  foldl (λ acc i, acc;; clapBurst time burstCount i) (mret tt) (seq 0 burstCount).

Definition playTom (time startFreq endFreq : Qc) : Eff Session unit :=
  connect_master
    {| csource := Oscillator sine (Ramp startFreq endFreq (dec 15 100));
       cfilters := [];
       cgain := Ramp (dec 8 10) (dec 1 100) (dec 3 10);
       cstart := time; cstop := (time + dec 3 10)%Qc; cleanup := 2 |}.

Definition playCrash (time : Qc) : Eff Session unit :=
  noise ← the_noise;
  connect_master
    {| csource := noise;
       cfilters := [{| ftype := highpass; ffrequency := Fixed (Qc_of_Z 5000);
                       fQ := Qc_of_Z 1 |};
                    {| ftype := lowpass; ffrequency := Fixed (Qc_of_Z 12000);
                       fQ := Qc_of_Z 1 |}];
       cgain := Ramp (dec 7 10) (dec 1 100) (dec 15 10);
       cstart := time; cstop := (time + dec 15 10)%Qc; cleanup := 4 |}.

Definition playRide (time : Qc) : Eff Session unit :=
  noise ← the_noise;
  connect_master
    {| csource := noise;
       cfilters := [{| ftype := bandpass; ffrequency := Fixed (Qc_of_Z 8000);
                       fQ := Qc_of_Z 2 |}];
       cgain := Ramp (dec 3 10) (dec 1 100) (dec 6 10);
       cstart := time; cstop := (time + dec 6 10)%Qc; cleanup := 3 |};;
  connect_master
    {| csource := Oscillator sine (Fixed (Qc_of_Z 6000));
       cfilters := [];
       cgain := Ramp (dec 1 10) (dec 1 100) (dec 4 10);
       cstart := time; cstop := (time + dec 4 10)%Qc; cleanup := 2 |}.

Definition playSynth (time : Qc) : Eff Session unit :=
  connect_master
    {| csource := Oscillator square (Fixed (Qc_of_Z 440));
       cfilters := [{| ftype := lowpass;
                       ffrequency := Ramp (Qc_of_Z 2000) (Qc_of_Z 200) (dec 3 10);
                       fQ := Qc_of_Z 5 |}];
       cgain := Ramp (dec 4 10) (dec 1 100) (dec 3 10);
       cstart := time; cstop := (time + dec 3 10)%Qc; cleanup := 3 |}.

(** [console.warn(message)] *)
Definition console_warn (message : string) : Eff Session unit :=
  modify (λ s, {| drums := drums s; console := console s ++ [message];
                  initStatus := initStatus s |}).

(** ** The operations of the engine *)

(** [play(soundName)]; the [switch] compares [soundName] with each label
    in turn. *)
Definition play (soundName : string) : Eff Session unit :=
  s ← get_state;
  match audioContext (drums s) with
  | None => mret tt
  | Some a =>
    (match state a with
     | suspended =>
       modify (set_drums (λ x, set_audioContext (resume <$> audioContext x) x))
     | _ => mret tt
     end);;
    let now := currentTime a in
    if String.eqb soundName "kick" then playKick now
    else if String.eqb soundName "snare" then playSnare now
    else if String.eqb soundName "hihat" then playHihat now
    else if String.eqb soundName "clap" then playClap now
    else if String.eqb soundName "tom1" then playTom now (Qc_of_Z 200) (Qc_of_Z 100)
    else if String.eqb soundName "tom2" then playTom now (Qc_of_Z 120) (Qc_of_Z 60)
    else if String.eqb soundName "crash" then playCrash now
    else if String.eqb soundName "ride" then playRide now
    else if String.eqb soundName "synth" then playSynth now
    else console_warn ("Unknown sound: " ++ soundName)
  end.

(** [setVolume(value)] *)
Definition setVolume (value : Qc) (s : Session) : Session :=
  match masterGain (drums s) with
  | Some _ =>
    set_drums (λ x, {| audioContext := audioContext x; noiseBuffer := noiseBuffer x;
                       masterGain := Some (Qc_max 0 (Qc_min 1 value)) |}) s
  | None => s
  end.

(** [dispose()] *)
Definition dispose (s : Session) : Session :=
  match audioContext (drums s) with
  | Some _ => set_drums (set_audioContext None) s
  | None => s
  end.

(** ** Vocabulary of the statements *)

(** The labels of the [switch] of [play]. *)
Definition voices : list string :=
  ["kick"; "snare"; "hihat"; "clap"; "tom1"; "tom2"; "crash"; "ride"; "synth"]%string.

(** The chains built so far on the current context. *)
Definition chainsOf (s : Session) : list Chain :=
  match audioContext (drums s) with
  | Some a => chains a
  | None => []
  end.

(** The gain of a bound context exists: [init] creates both together. *)
Definition gain_bound (s : Session) : Prop :=
  audioContext (drums s) ≠ None → masterGain (drums s) ≠ None.

(** What can happen to an engine, one event at a time. *)
Inductive Event : Type :=
| CallInit (st : ContextState) (rate : N)
| ContextResumed
| TimePasses (dt : Qc)
| CallPlay (soundName : string)
| CallSetVolume (value : Qc)
| CallDispose.

Definition step (s : Session) (e : Event) : Session :=
  match e with
  | CallInit st rate => init st rate s
  | ContextResumed => init_resumed s
  | TimePasses dt => advance dt s
  | CallPlay soundName => snd (play soundName s)
  | CallSetVolume value => setVolume value s
  | CallDispose => dispose s
  end.

(** The engine after a history of events, from its construction. *)
Definition after (events : list Event) : Session := foldl step new events.

(** A chain as the recipes build them: the gain decays from a level above
    0.01 to 0.01, the source stops when the decay ends, [scheduleCleanup]
    lists the source, every filter and the gain, and a buffer source plays
    a buffer. *)
Definition chain_ok (c : Chain) : Prop :=
  ∃ level over,
    cgain c = Ramp level (dec 1 100) over
    ∧ (dec 1 100 < level)%Qc ∧ (level ≤ 1)%Qc ∧ (0 < over)%Qc
    ∧ cstop c = (cstart c + over)%Qc
    ∧ cleanup c = 2 + length (cfilters c)
    ∧ (∀ b, csource c = BufferSource b → b ≠ None).

(** The noise buffer of a bound context exists: [init] creates both
    together. *)
Definition buffer_bound (s : Session) : Prop :=
  audioContext (drums s) ≠ None → noiseBuffer (drums s) ≠ None.

(** The calls of [audioContext.resume()] made so far on the current
    context. *)
Definition resumesOf (s : Session) : nat :=
  match audioContext (drums s) with
  | Some a => resumeCalls a
  | None => 0
  end.

(** The time of the audio clock, 0 without a context. *)
Definition now_of (s : Session) : Qc :=
  match audioContext (drums s) with
  | Some a => currentTime a
  | None => 0%Qc
  end.

(** An event other than a call of [init()]. *)
Definition not_init (e : Event) : Prop :=
  match e with
  | CallInit _ _ => False
  | _ => True
  end.

(** The buffer of a bound context is the one [init] made for it. *)
Definition buffer_made (s : Session) : Prop :=
  ∀ a, audioContext (drums s) = Some a →
    noiseBuffer (drums s)
    = Some {| nlength := (sampleRate a * 2)%N; nrate := sampleRate a |}.

(** A chain whose source is a buffer source plays the buffer that [init]
    made for the current context, two seconds at its sample rate, and
    stops at most 1.5 s after it starts. *)
Definition noise_fits (s : Session) (c : Chain) : Prop :=
  ∀ b, csource c = BufferSource b →
    ∃ a, audioContext (drums s) = Some a
      ∧ b = Some {| nlength := (sampleRate a * 2)%N; nrate := sampleRate a |}
      ∧ (cstop c ≤ cstart c + dec 15 10)%Qc.

(** Unfolds the recipes and the monad in a goal about [play]. *)
Ltac run_eff :=
  unfold playKick, playSnare, playHihat, playClap, playTom, playCrash, playRide,
    playSynth, clapBurst, console_warn, connect_master, the_noise;
  unfold mbind, Eff_bind, eff_bind, get_state, mret, Eff_ret, eff_ret, modify;
  cbn.

End Audio.

(** * The controller *)

(** The part of [script.js] (class [NeonDrum]) that joins the two engines:
    the table from cells to voices, [triggerCell], [loop], [stop] and the
    keyboard handler.  The page is not part of the sources: the number of
    its [.cell] elements is a field of the state. *)
Module Controller.

(** [this.soundMap] *)
Definition soundMap : list string :=
  ["hihat"; "snare"; "crash";
   "tom1"; "kick"; "tom2";
   "clap"; "ride"; "synth"]%string.

(** [keyMap] of the [keydown] handler. *)
Definition keyMap : list (string * nat) :=
  [("1", 0); ("2", 1); ("3", 2);
   ("4", 3); ("5", 4); ("6", 5);
   ("7", 6); ("8", 7); ("9", 8)]%string.

(** [keyMap.hasOwnProperty(key)] and [keyMap[key]] *)
Fixpoint lookupKey (m : list (string * nat)) (key : string) : option nat :=
  match m with
  | [] => None
  | (k, v) :: m => if String.eqb key k then Some v else lookupKey m key
  end.

Record NeonDrum : Type := {
  drums : bool;                       (* this.drums is an engine, not null *)
  engine : Audio.Session;             (* that engine, and the console *)
  detector : option Motion.MotionDetector;
  isRunning : bool;
  cells : nat;                        (* the .cell elements of the page *)
  flashing : list nat;                (* the cells with the class 'triggered' *)
  loopErrors : list JsError;          (* what loop() wrote with console.error *)
  pendingFrame : bool                 (* this.animationId is set *)
}.

Definition set_engine (e : Audio.Session) (a : NeonDrum) : NeonDrum :=
  {| drums := drums a; engine := e; detector := detector a;
     isRunning := isRunning a; cells := cells a; flashing := flashing a;
     loopErrors := loopErrors a; pendingFrame := pendingFrame a |}.

Definition set_detector (d : option Motion.MotionDetector) (a : NeonDrum) : NeonDrum :=
  {| drums := drums a; engine := engine a; detector := d;
     isRunning := isRunning a; cells := cells a; flashing := flashing a;
     loopErrors := loopErrors a; pendingFrame := pendingFrame a |}.

Definition set_flashing (l : list nat) (a : NeonDrum) : NeonDrum :=
  {| drums := drums a; engine := engine a; detector := detector a;
     isRunning := isRunning a; cells := cells a; flashing := l;
     loopErrors := loopErrors a; pendingFrame := pendingFrame a |}.

Definition set_pendingFrame (b : bool) (a : NeonDrum) : NeonDrum :=
  {| drums := drums a; engine := engine a; detector := detector a;
     isRunning := isRunning a; cells := cells a; flashing := flashing a;
     loopErrors := loopErrors a; pendingFrame := b |}.

Definition log_error (e : JsError) (a : NeonDrum) : NeonDrum :=
  {| drums := drums a; engine := engine a; detector := detector a;
     isRunning := isRunning a; cells := cells a; flashing := flashing a;
     loopErrors := loopErrors a ++ [e]; pendingFrame := pendingFrame a |}.

(** A method of the engine called on [this.drums]. *)
Definition on_engine {A} (m : Eff Audio.Session A) : Eff NeonDrum A :=
  λ a, let '(r, e) := m (engine a) in (r, set_engine e a).

(** [cell.classList.add('triggered')] *)
Definition classList_add (index : nat) (l : list nat) : list nat :=
  if decide (index ∈ l) then l else l ++ [index].

(** [triggerCell(index)].  Outside the table [this.soundMap[index]] is
    [undefined], which no label of the [switch] of [play] equals and which
    the warning prints as [undefined]; outside the page [this.cells[index]]
    is [undefined] and reading its [classList] is a [TypeError]. *)
Definition triggerCell (index : nat) : Eff NeonDrum unit :=
  a ← get_state;
  let soundName := default "undefined"%string (soundMap !! index) in
  (if drums a then on_engine (Audio.play soundName) else mret tt);;
  if decide (index < cells a)
  then modify (λ a, set_flashing (classList_add index (flashing a)) a)
  else throw TypeError.

(** The [animationend] listener of a cell. *)
Definition animationend (index : nat) (a : NeonDrum) : NeonDrum :=
  set_flashing (filter (λ i, i ≠ index) (flashing a)) a.

(** [triggered.forEach(f)] *)
Fixpoint forEach {S A} (f : A → Eff S unit) (l : list A) : Eff S unit :=
  match l with
  | [] => mret tt
  | x :: l => f x;; forEach f l
  end.

(** [loop()], with what the platform hands to the [detect] of this
    frame. *)
Definition loop (p : Motion.Platform) : Eff NeonDrum unit :=
  a ← get_state;
  if negb (isRunning a) then mret tt else
  try_catch
    (a ← get_state;
     match detector a with
     | None => throw TypeError
     | Some d =>
       let '(r, d) := Motion.detect p d in
       modify (set_detector (Some d));;
       match r with
       | Normal triggered => forEach triggerCell triggered
       | Thrown e => throw e
       end
     end)
    (λ error, modify (log_error error));;
  modify (set_pendingFrame true).

(** The [keydown] listener. *)
Definition keydown (key : string) : Eff NeonDrum unit :=
  a ← get_state;
  if negb (isRunning a) then mret tt else
  match lookupKey keyMap key with
  | Some index => triggerCell index
  | None => mret tt
  end.

(** [stop()] *)
Definition stop (a : NeonDrum) : NeonDrum :=
  let a := {| drums := drums a; engine := engine a; detector := detector a;
              isRunning := false; cells := cells a; flashing := flashing a;
              loopErrors := loopErrors a; pendingFrame := false |} in
  if drums a
  then {| drums := false; engine := Audio.dispose (engine a); detector := detector a;
          isRunning := isRunning a; cells := cells a; flashing := flashing a;
          loopErrors := loopErrors a; pendingFrame := pendingFrame a |}
  else a.

(** The application once [start()] has succeeded: the engine initialised,
    the detector constructed from the two sliders and bound to the video
    and the debug canvas, the loop running. *)
Definition started (st : Audio.ContextState) (rate : N) (sensitivity cooldown : Z)
    (v : Motion.Video) (ncells : nat) : NeonDrum :=
  {| drums := true;
     engine := Audio.init_resumed (Audio.init st rate Audio.new);
     detector := Some (Motion.init v true
                   (Motion.new {| Motion.o_width := None; Motion.o_height := None;
                                  Motion.o_cols := None; Motion.o_rows := None;
                                  Motion.o_threshold := Some sensitivity;
                                  Motion.o_cooldownMs := Some cooldown |}));
     isRunning := true; cells := ncells; flashing := [];
     loopErrors := []; pendingFrame := false |}.

(** What happens to the application, one event at a time. *)
Inductive Event : Type :=
| Frame (p : Motion.Platform)        (* the animation frame runs loop() *)
| KeyDown (key : string)
| Click (index : nat)                (* a click on the cell [index] *)
| AnimationEnd (index : nat)
| Sensitivity (value : Z)            (* the sliders *)
| Cooldown (value : Z)
| Stop.

(** The listeners of the two sliders. *)
Definition on_detector (f : Motion.MotionDetector → Motion.MotionDetector)
    (a : NeonDrum) : NeonDrum :=
  set_detector (f <$> detector a) a.

(** The handler of an event. *)
Definition handle (e : Event) : Eff NeonDrum unit :=
  match e with
  | Frame p => loop p
  | KeyDown key => keydown key
  | Click index => triggerCell index
  | AnimationEnd index => modify (animationend index)
  | Sensitivity value => modify (on_detector (Motion.setThreshold value))
  | Cooldown value => modify (on_detector (Motion.setCooldown value))
  | Stop => modify stop
  end.

(** One event; a handler that throws leaves the state it reached. *)
Definition step (a : NeonDrum) (e : Event) : NeonDrum := snd (handle e a).

(** Clicks come from the cells of the page. *)
Definition on_page (ncells : nat) (e : Event) : Prop :=
  match e with
  | Click index => index < ncells
  | _ => True
  end.

(** The state of an application on a page of nine cells that no error has
    touched: a running loop has its detector, the detector has the nine
    cells of the table, an engine that is kept has its gain, and nothing
    was written to the console or by [console.error]. *)
Definition healthy (a : NeonDrum) : Prop :=
  cells a = 9
  ∧ loopErrors a = []
  ∧ Audio.console (engine a) = []
  ∧ (drums a = true → Audio.gain_bound (engine a))
  ∧ (isRunning a = true → detector a ≠ None)
  ∧ (∀ d, detector a = Some d → Motion.cellCount d = 9)
  ∧ Forall (λ i, i < 9) (flashing a)
  ∧ NoDup (flashing a).

End Controller.

(** * Concrete scenes *)

Module Scenario.
Import Motion.

(** A frame painted pixel by pixel: the three colour channels of the pixel
    at column [x] of row [y] are [colour x y], its alpha is 255. *)
Definition paintedFrame (w h : nat) (colour : nat → nat → byte) : ImageData :=
  {| data := y ← seq 0 h; x ← seq 0 w;
             [colour x y; colour x y; colour x y; "255"%byte];
     iwidth := w; iheight := h |}.

(** A frame of one colour. *)
Definition uniformFrame (w h : nat) (b : byte) : ImageData :=
  paintedFrame w h (λ _ _, b).

Definition bright : byte := "200"%byte.
Definition dark : byte := "000"%byte.

Definition webcam : Video := {| videoWidth := 640; videoHeight := 480 |}.
Definition wideCamera : Video := {| videoWidth := 1920; videoHeight := 1080 |}.

(** [new MotionDetector({ width: 6, height: 6, threshold: 20,
    cooldownMs: 250 })]: nine cells of 2 by 2 pixels. *)
Definition smallCanvas : Options :=
  {| o_width := Some 6; o_height := Some 6; o_cols := None; o_rows := None;
     o_threshold := Some 20%Z; o_cooldownMs := Some 250%Z |}.

(** That detector bound to a video, without and with the debug canvas. *)
Definition detector0 : MotionDetector := init webcam false (new smallCanvas).

(** A call at time [t] on a ready video whose canvas reads back as a
    uniform 6 by 6 frame. *)
Definition tick (t : Z) (b : byte) : Platform :=
  {| clock := t; readyState := 4; frame := Pixels (uniformFrame 6 6 b) |}.

(** [new MotionDetector({ width: 2, height: 6 })]: a canvas narrower than
    the three columns of the grid. *)
Definition narrowCanvas : Options :=
  {| o_width := Some 2; o_height := Some 6; o_cols := None; o_rows := None;
     o_threshold := None; o_cooldownMs := None |}.

(** A 6 by 6 frame that is bright on the four pixels of the centre cell and
    dark elsewhere. *)
Definition spotFrame : ImageData :=
  paintedFrame 6 6 (λ x y,
    if bool_decide (2 ≤ x < 4 ∧ 2 ≤ y < 4) then bright else dark).

(** A call during which [drawImage] throws. *)
Definition tick_unready (t : Z) : Platform :=
  {| clock := t; readyState := 4; frame := DrawThrows InvalidStateError |}.

(** The detector of the controller, 64 by 48, bound to a 16:9 camera, and a
    call on it. *)
Definition detector_wide : MotionDetector := init wideCamera false (new no_options).
Definition tick_wide : Platform :=
  {| clock := 1000; readyState := 4; frame := Pixels (uniformFrame 64 48 bright) |}.


End Scenario.

(** * Properties of the motion detector *)

Module MotionProps.
Import Motion Scenario.

Local Open Scope nat_scope.

(** ** Lists as arrays *)

Lemma lookup_insert_fmap {A} (l : list A) (i j : nat) (x : A) :
  <[i:=x]> l !! j = if decide (i = j) then (λ _, x) <$> l !! j else l !! j.
Proof.
  rewrite list_lookup_insert.
  destruct (decide (i = j)) as [->|Hne].
  - destruct (l !! j) as [y|] eqn:Hj; simpl.
    + apply lookup_lt_Some in Hj. rewrite decide_True; [done|lia].
    + apply lookup_ge_None in Hj. rewrite decide_False; [done|lia].
  - rewrite decide_False; [done|]. intros [? _]; contradiction.
Qed.

Lemma seq_strictly_ascending (a n : nat) : StronglySorted lt (seq a n).
Proof.
  revert a. induction n as [|n IH]; intros a; simpl; constructor.
  - apply IH.
  - apply Forall_forall. intros k Hk. apply elem_of_seq in Hk. lia.
Qed.

Lemma filter_strictly_ascending (P : nat → Prop) `{∀ x, Decision (P x)} (l : list nat) :
  StronglySorted lt l → StronglySorted lt (filter P l).
Proof.
  induction 1 as [|x l Hl IH Hx]; [constructor|].
  rewrite filter_cons. destruct (decide (P x)); [|done].
  constructor; [done|].
  apply Forall_forall. intros y Hy. apply list_elem_of_filter in Hy as [_ Hy].
  rewrite Forall_forall in Hx. by apply Hx.
Qed.

(** ** The loop of [detect] *)

Lemma getRegionBrightness_config d d' img i :
  same_config d d' → getRegionBrightness d' img i = getRegionBrightness d img i.
Proof.
  intros (Hw & Hh & Hc & Hr & _). unfold getRegionBrightness.
  by rewrite Hw, Hh, Hc, Hr.
Qed.

Lemma cellFires_ext img now d d' i :
  same_config d d' →
  previousBrightness d' !! i = previousBrightness d !! i →
  cooldowns d' !! i = cooldowns d !! i →
  cellFires img now d' i = cellFires img now d i.
Proof.
  intros Hcfg Hp Hc. unfold cellFires, brightnessDelta, prevAt, cooldownAt.
  rewrite (getRegionBrightness_config d d') by done.
  destruct Hcfg as (_ & _ & _ & _ & _ & -> & _).
  by rewrite Hp, Hc.
Qed.

Lemma same_config_refl d : same_config d d.
Proof. by repeat split. Qed.

Lemma same_config_trans d1 d2 d3 :
  same_config d1 d2 → same_config d2 d3 → same_config d1 d3.
Proof.
  intros (?&?&?&?&?&?&?) (?&?&?&?&?&?&?). repeat split; congruence.
Qed.

(** What one turn of the loop does to the call's [triggered] and to the
    fields of the detector. *)
Lemma detectCell_step img now trig d i :
  ∃ d', detectCell img now (trig, d) i
          = (trig ++ (if cellFires img now d i then [i] else []), d')
    ∧ same_config d d'
    ∧ ctx d' = ctx d ∧ video d' = video d ∧ debugCtx d' = debugCtx d
    ∧ previousBrightness d'
        = <[i := getRegionBrightness d img i]> (previousBrightness d)
    ∧ cooldowns d'
        = (if cellFires img now d i
           then <[i := (now + cooldownMs d)%Z]> (cooldowns d)
           else cooldowns d).
Proof.
  unfold detectCell, cellFires, brightnessDelta.
  destruct (bool_decide _ && bool_decide _); rewrite ?app_nil_r;
    eexists; (split; [reflexivity|]); repeat split.
Qed.

(** The state of the loop after the cells of [l], against the detector [d]
    the call started from. *)
Record LoopInv (img : ImageData) (now : Z) (d : MotionDetector) (l : list nat)
    (trig : list nat) (d' : MotionDetector) : Prop := {
  inv_trig : trig = filter (λ i, cellFires img now d i = true) l;
  inv_config : same_config d d';
  inv_ctx : ctx d' = ctx d;
  inv_video : video d' = video d;
  inv_debug : debugCtx d' = debugCtx d;
  inv_prev : ∀ j, previousBrightness d' !! j
               = if decide (j ∈ l)
                 then (λ _, getRegionBrightness d img j) <$> previousBrightness d !! j
                 else previousBrightness d !! j;
  inv_cool : ∀ j, cooldowns d' !! j
               = if decide (j ∈ l ∧ cellFires img now d j = true)
                 then (λ _, (now + cooldownMs d)%Z) <$> cooldowns d !! j
                 else cooldowns d !! j
}.

Lemma detect_fold img now d l :
  NoDup l →
  ∃ trig d', foldl (detectCell img now) ([], d) l = (trig, d')
             ∧ LoopInv img now d l trig d'.
Proof.
  induction l as [|i l IH] using rev_ind; intros Hnd.
  - exists [], d. split; [done|].
    split; [done|apply same_config_refl|done|done|done|intros j|intros j].
    + rewrite decide_False; [done|]. apply not_elem_of_nil.
    + rewrite decide_False; [done|]. intros [Hj _]. by apply not_elem_of_nil in Hj.
  - apply NoDup_app in Hnd as (Hl & Hi & _).
    assert (i ∉ l) as Hil by (intros ?; eapply Hi; [done|apply list_elem_of_singleton; done]).
    destruct (IH Hl) as (trig & d1 & Hfold & [Ht Hcfg Hctx Hvid Hdbg Hprev Hcool]).
    rewrite foldl_snoc, Hfold.
    destruct (detectCell_step img now trig d1 i)
      as (d2 & Hstep & Hcfg2 & Hctx2 & Hvid2 & Hdbg2 & Hprev2 & Hcool2).
    assert (cellFires img now d1 i = cellFires img now d i) as Hfires.
    { apply cellFires_ext; [done| |].
      - rewrite Hprev, decide_False; done.
      - rewrite Hcool, decide_False; [done|]. by intros [? _]. }
    assert (getRegionBrightness d1 img i = getRegionBrightness d img i) as Hb
      by (by apply getRegionBrightness_config).
    rewrite Hfires in Hstep, Hcool2. rewrite Hb in Hprev2.
    exists (trig ++ (if cellFires img now d i then [i] else [])), d2.
    split; [done|]. split.
    + rewrite filter_app, Ht. f_equal.
      rewrite filter_cons, filter_nil.
      destruct (cellFires img now d i); [by rewrite decide_True|by rewrite decide_False].
    + by eapply same_config_trans.
    + congruence.
    + congruence.
    + congruence.
    + intros j. rewrite Hprev2, lookup_insert_fmap, Hprev.
      destruct (decide (i = j)) as [<-|Hne].
      * rewrite decide_False by done. rewrite decide_True; [done|].
        apply elem_of_app; right. by apply list_elem_of_singleton.
      * destruct (decide (j ∈ l)) as [Hj|Hj].
        -- rewrite decide_True; [done|]. apply elem_of_app; by left.
        -- rewrite decide_False; [done|].
           rewrite elem_of_app, list_elem_of_singleton. intros [?|?]; [done|congruence].
    + intros j. rewrite Hcool2.
      destruct Hcfg as (_ & _ & _ & _ & _ & _ & Hcd).
      destruct (decide (i = j)) as [<-|Hne].
      * destruct (cellFires img now d i) eqn:Hf.
        -- rewrite lookup_insert_fmap, decide_True by done.
           rewrite Hcool, decide_False by (by intros [? _]).
           rewrite decide_True; [by rewrite Hcd|].
           split; [|done]. apply elem_of_app; right. by apply list_elem_of_singleton.
        -- rewrite Hcool, decide_False by (by intros [? _]).
           rewrite decide_False; [done|]. intros [_ ?]; congruence.
      * assert (cooldowns d1 !! j = (if cellFires img now d i
                  then <[i:=(now + cooldownMs d1)%Z]> (cooldowns d1)
                  else cooldowns d1) !! j) as <-.
        { destruct (cellFires img now d i); [|done].
          by rewrite list_lookup_insert_ne. }
        rewrite Hcool.
        destruct (decide (j ∈ l ∧ cellFires img now d j = true)) as [[Hj Hf]|Hj].
        -- rewrite decide_True; [done|]. split; [|done]. apply elem_of_app; by left.
        -- rewrite decide_False; [done|].
           rewrite elem_of_app, list_elem_of_singleton.
           intros [[?|?] ?]; [by apply Hj|congruence].
Qed.

(** A call that works on a frame: the loop runs on a detector [dr] that
    differs from [d] in the canvas only. *)
Lemma detect_success p d img :
  processes p d img →
  ∃ dr, same_config d dr ∧ previousBrightness dr = previousBrightness d
        ∧ cooldowns dr = cooldowns d
        ∧ fst (detect p d) = Normal (fst (detectLoop img (clock p) dr))
        ∧ previousBrightness (snd (detect p d))
            = previousBrightness (snd (detectLoop img (clock p) dr))
        ∧ cooldowns (snd (detect p d)) = cooldowns (snd (detectLoop img (clock p) dr))
        ∧ same_config (snd (detectLoop img (clock p) dr)) (snd (detect p d))
        ∧ video (snd (detect p d)) = video (snd (detectLoop img (clock p) dr))
        ∧ ctx (snd (detect p d)) = ctx (snd (detectLoop img (clock p) dr))
        ∧ video dr = video d
        ∧ ctx dr = (λ c, {| scaleX := scaleX c; saved := saved c;
                 lastDraw := Some {| source := match video d with
               | Some v => {| rx := 0; ry := 0;
                              rw := Z.of_nat (videoWidth v);
                              rh := Z.of_nat (videoHeight v) |}
               | None => {| rx := 0; ry := 0; rw := 0; rh := 0 |}
               end; dest := {| rx := - Z.of_nat (width d); ry := 0;
                                rw := Z.of_nat (width d); rh := Z.of_nat (height d) |};
                              xscale := (scaleX c * -1)%Z |} |}) <$> ctx d.
Proof.
  intros (Hv & Hc & Hr & Hf).
  destruct (video d) as [v|] eqn:Ev; [|done].
  destruct (ctx d) as [c|] eqn:Ec; [|done].
  unfold detect. unfold mbind, Eff_bind, eff_bind, get_state.
  rewrite Ev, Ec.
  rewrite bool_decide_eq_false_2 by (intros [?|?]; done).
  rewrite bool_decide_eq_false_2 by (unfold HAVE_CURRENT_DATA in *; lia).
  unfold try_catch, render, ctx_save, ctx_scale, ctx_drawImage, ctx_restore,
    ctx_getImageData, with_ctx, modify.
  unfold mbind, Eff_bind, eff_bind, get_state, mret, Eff_ret, eff_ret.
  rewrite Hf. cbn. rewrite Ec. cbn. rewrite Ev. cbn.
  match goal with |- context [foldl _ ([], ?x) _] => set (dr := x) end.
  exists dr. unfold detectLoop. change (cellCount dr) with (cellCount d).
  destruct (foldl _ _ _) as [trig d1] eqn:E. cbn.
  destruct (debugCtx d1); cbn; repeat split; done.
Qed.

(** A call that does not work on a frame. *)
Lemma detect_skip p d :
  video d = None ∨ ctx d = None ∨ readyState p < HAVE_CURRENT_DATA
  ∨ (∃ e, frame p = DrawThrows e) ∨ (∃ e, frame p = ReadThrows e) →
  fst (detect p d) = Normal []
  ∧ same_config d (snd (detect p d))
  ∧ previousBrightness (snd (detect p d)) = previousBrightness d
  ∧ cooldowns (snd (detect p d)) = cooldowns d
  ∧ video (snd (detect p d)) = video d
  ∧ (ctx (snd (detect p d)) = None ↔ ctx d = None)
  ∧ debugCtx (snd (detect p d)) = debugCtx d.
Proof.
  intros H. unfold detect. unfold mbind, Eff_bind, eff_bind, get_state.
  destruct (decide (video d = None ∨ ctx d = None)) as [Hb|Hb].
  { rewrite bool_decide_eq_true_2 by done. cbn. repeat split; done. }
  rewrite bool_decide_eq_false_2 by done.
  destruct (decide (readyState p < HAVE_CURRENT_DATA)) as [Hr|Hr].
  { rewrite bool_decide_eq_true_2 by done. cbn. repeat split; done. }
  rewrite bool_decide_eq_false_2 by done.
  destruct H as [H|[H|[H|H]]]; [tauto|tauto|done|].
  unfold try_catch, render, ctx_save, ctx_scale, ctx_drawImage, ctx_restore,
    ctx_getImageData, with_ctx, modify, throw.
  unfold mbind, Eff_bind, eff_bind, get_state, mret, Eff_ret, eff_ret.
  destruct (ctx d) as [c|] eqn:Ec; [|tauto].
  destruct H as [[e ->]|[e ->]]; cbn; rewrite ?Ec; cbn; repeat split; try done.
  all: try (destruct (saved c); cbn; done).
Qed.

Lemma detect_cases p d :
  (video d = None ∨ ctx d = None ∨ readyState p < HAVE_CURRENT_DATA
   ∨ (∃ e, frame p = DrawThrows e) ∨ (∃ e, frame p = ReadThrows e))
  ∨ ∃ img, processes p d img.
Proof.
  unfold processes.
  destruct (video d); [|by left; left].
  destruct (ctx d); [|by left; right; left].
  destruct (decide (readyState p < HAVE_CURRENT_DATA)); [by left; right; right; left|].
  destruct (frame p) as [e|e|img].
  - left; right; right; right; left. by exists e.
  - left; right; right; right; right. by exists e.
  - right. exists img. repeat split; try done. lia.
Qed.

Lemma detectLoop_inv img now d :
  LoopInv img now d (seq 0 (cellCount d))
    (fst (detectLoop img now d)) (snd (detectLoop img now d)).
Proof.
  unfold detectLoop.
  destruct (detect_fold img now d (seq 0 (cellCount d)) (NoDup_seq _ _))
    as (trig & d' & -> & Hinv). done.
Qed.

(** The loop seen from a call that works on a frame: the invariant holds
    against the detector the call started from. *)
Lemma detect_loop_inv p d img :
  processes p d img →
  ∃ d1, fst (detect p d)
        = Normal (filter (λ i, cellFires img (clock p) d i = true) (seq 0 (cellCount d)))
    ∧ previousBrightness (snd (detect p d)) = previousBrightness d1
    ∧ cooldowns (snd (detect p d)) = cooldowns d1
    ∧ same_config d (snd (detect p d))
    ∧ (∀ j, previousBrightness d1 !! j
            = if decide (j ∈ seq 0 (cellCount d))
              then (λ _, getRegionBrightness d img j) <$> previousBrightness d !! j
              else previousBrightness d !! j)
    ∧ (∀ j, cooldowns d1 !! j
            = if decide (j ∈ seq 0 (cellCount d) ∧ cellFires img (clock p) d j = true)
              then (λ _, (clock p + cooldownMs d)%Z) <$> cooldowns d !! j
              else cooldowns d !! j).
Proof.
  intros Hp.
  destruct (detect_success p d img Hp)
    as (dr & Hcfg & Hprev & Hcool & Hres & Hp' & Hc' & Hcfg' & _).
  pose proof (detectLoop_inv img (clock p) dr) as [Ht Hcfg1 _ _ _ Hpr Hco].
  exists (snd (detectLoop img (clock p) dr)).
  assert (∀ j, cellFires img (clock p) dr j = cellFires img (clock p) d j) as Hf.
  { intros j. apply cellFires_ext; [done|by rewrite Hprev|by rewrite Hcool]. }
  assert (cellCount dr = cellCount d) as Hn by apply Hcfg.
  split_and!; try done.
  - rewrite Hres, Ht, Hn. f_equal. apply list_filter_iff. intros j. by rewrite Hf.
  - eapply same_config_trans; [done|]. by eapply same_config_trans.
  - intros j. rewrite Hpr, Hn, Hprev.
    by rewrite (getRegionBrightness_config d dr).
  - intros j. rewrite Hco, Hn, Hcool, Hf.
    destruct Hcfg as (_ & _ & _ & _ & _ & _ & ->). done.
Qed.

Lemma cellFires_true img now d i :
  cellFires img now d i = true
  ↔ (Qc_of_Z (threshold d) < brightnessDelta d img i)%Qc ∧ (cooldownAt d i < now)%Z.
Proof.
  unfold cellFires. rewrite andb_true_iff, !bool_decide_eq_true. done.
Qed.

Lemma same_domain_length {A B} (l : list A) (k : list B) :
  (∀ j, is_Some (l !! j) ↔ is_Some (k !! j)) → length l = length k.
Proof.
  intros H.
  assert (∀ j, j < length l ↔ j < length k) as Hlt.
  { intros j. by rewrite <- !lookup_lt_is_Some. }
  pose proof (Hlt (length l)). pose proof (Hlt (length k)). lia.
Qed.


(** C5.  On a call of [detect] that works on a frame,
    [previousBrightness[i]] becomes the brightness just computed for every
    cell [i], whether or not the cell triggered and whether or not it is in
    its cooldown; the array keeps one entry per cell. *)
Theorem detect_updates_previousBrightness (p : Platform) (d : MotionDetector)
    (img : ImageData) :
  processes p d img → cells_wf d →
  length (previousBrightness (snd (detect p d))) = cellCount d
  ∧ ∀ i, i < cellCount d →
      previousBrightness (snd (detect p d)) !! i = Some (getRegionBrightness d img i).
Proof.
  intros Hp [Hwp Hwc].
  destruct (detect_loop_inv p d img Hp) as (d1 & _ & Hp' & _ & _ & Hpr & _).
  assert (∀ i, i < cellCount d →
    previousBrightness (snd (detect p d)) !! i = Some (getRegionBrightness d img i)) as Hall.
  { intros i Hi. rewrite Hp', Hpr.
    rewrite decide_True by (apply elem_of_seq; lia).
    destruct (lookup_lt_is_Some_2 (previousBrightness d) i) as [z ->]; [lia|done]. }
  split; [|done].
  rewrite <- Hwp, Hp'. apply same_domain_length.
  intros j. rewrite Hpr. destruct (decide _); [|done].
  by rewrite fmap_is_Some.
Qed.

(** C6.  With no video or no context bound, with a video that has no
    current frame, or when drawing or reading the frame throws, [detect]
    completes normally with the empty result and leaves
    [previousBrightness] and [cooldowns] as they were. *)
Theorem detect_skips_without_frame (p : Platform) (d : MotionDetector) :
  video d = None ∨ ctx d = None ∨ readyState p < HAVE_CURRENT_DATA
  ∨ (∃ e, frame p = DrawThrows e) ∨ (∃ e, frame p = ReadThrows e) →
  fst (detect p d) = Normal []
  ∧ previousBrightness (snd (detect p d)) = previousBrightness d
  ∧ cooldowns (snd (detect p d)) = cooldowns d.
Proof.
  intros H. destruct (detect_skip p d H) as (? & _ & ? & ? & _). done.
Qed.

(** C10.  Every call of [detect] returns, and what it returns is strictly
    ascending, hence without repetition, and made of cell indices below
    [cellCount], that is of indices 0..8 on the 3 by 3 grid. *)
Theorem detect_result_ascending (p : Platform) (d : MotionDetector) :
  ∃ triggered, fst (detect p d) = Normal triggered
    ∧ StronglySorted lt triggered
    ∧ NoDup triggered
    ∧ Forall (λ i, i < cellCount d) triggered
    ∧ (cellCount d = 9 → Forall (λ i, i ≤ 8) triggered).
Proof.
  assert (∃ triggered, fst (detect p d) = Normal triggered
    ∧ StronglySorted lt triggered ∧ Forall (λ i, i < cellCount d) triggered)
    as (t & Ht & Hs & Hb).
  { destruct (detect_cases p d) as [Hskip|[img Hp]].
    - exists []. split; [by apply detect_skip|]. split; constructor.
    - destruct (detect_loop_inv p d img Hp) as (d1 & Hres & _).
      eexists. split; [exact Hres|]. split.
      + apply filter_strictly_ascending, seq_strictly_ascending.
      + apply Forall_forall. intros i Hi.
        apply list_elem_of_filter in Hi as [_ Hi]. apply elem_of_seq in Hi. lia. }
  exists t. repeat split; try done.
  - clear Ht Hb. induction Hs as [|x l Hl IH Hx]; constructor; [|done].
    intros Hin. rewrite Forall_forall in Hx. specialize (Hx x Hin). lia.
  - intros H9. eapply Forall_impl; [exact Hb|]. intros i. simpl. lia.
Qed.

(** ** Brightness of a cell *)

Lemma Qc_sum_app l k : Qc_sum (l ++ k) = (Qc_sum l + Qc_sum k)%Qc.
Proof.
  induction l as [|x l IH]; simpl.
  - by rewrite Qcplus_0_l.
  - by rewrite IH, Qcplus_assoc.
Qed.

(** The inner loop, over the columns of one row. *)
Lemma sumRow img y xs total count :
  foldl (λ '(totalBrightness, pixelCount) x,
      let idx := (y * iwidth img + x) * 4 in
      let brightness :=
        ((channel (data img) idx + channel (data img) (idx + 1)
          + channel (data img) (idx + 2)) / Qc_of_Z 3)%Qc in
      ((totalBrightness + brightness)%Qc, S pixelCount)) (total, count) xs
  = ((total + Qc_sum (pixelBrightness img <$> ((λ x, (x, y)) <$> xs)))%Qc,
     count + length xs).
Proof.
  revert total count. induction xs as [|x xs IH]; intros total count; simpl.
  - by rewrite Qcplus_0_r, Nat.add_0_r.
  - rewrite IH. f_equal; [|lia].
    unfold pixelBrightness at 2. simpl. by rewrite Qcplus_assoc.
Qed.

Lemma sumRegion_spec img startX startY cellW cellH :
  sumRegion img startX startY cellW cellH
  = (Qc_sum (pixelBrightness img
              <$> (y ← seq startY cellH; x ← seq startX cellW; [(x, y)])),
     cellW * cellH).
Proof.
  unfold sumRegion.
  assert (∀ ys total count,
    foldl (λ acc y,
      foldl (λ '(totalBrightness, pixelCount) x,
        let idx := (y * iwidth img + x) * 4 in
        let brightness :=
          ((channel (data img) idx + channel (data img) (idx + 1)
            + channel (data img) (idx + 2)) / Qc_of_Z 3)%Qc in
        ((totalBrightness + brightness)%Qc, S pixelCount))
        acc (seq startX cellW)) (total, count) ys
    = (Qcplus total (Qc_sum (pixelBrightness img
                          <$> (y ← ys; x ← seq startX cellW; [(x, y)]))),
       count + cellW * length ys)) as H.
  { induction ys as [|y ys IH]; intros total count; simpl.
    - by rewrite Qcplus_0_r, Nat.mul_0_r, Nat.add_0_r.
    - rewrite sumRow, IH, length_seq. f_equal; [|lia].
      rewrite fmap_app, Qc_sum_app, Qcplus_assoc.
      assert (∀ xs : list nat, (λ x, (x, y)) <$> xs = xs ≫= λ x, [(x, y)]) as Hrow.
      { clear. induction xs as [|x xs IHx]; [done|].
        rewrite fmap_cons, bind_cons, IHx. done. }
      by rewrite Hrow. }
  rewrite H, Qcplus_0_l, length_seq. done.
Qed.

Lemma length_cellPixels d i :
  length (cellPixels d i) = (width d / cols d) * (height d / rows d).
Proof.
  unfold cellPixels.
  generalize (i mod cols d * (width d / cols d)) (i / cols d * (height d / rows d)).
  generalize (width d / cols d) (height d / rows d). intros w h sx sy.
  assert (∀ y : nat, length (seq sx w ≫= λ x, [(x, y)]) = w) as Hrow.
  { intros y. generalize sx. clear. induction w as [|w IHw]; intros sx; [done|].
    simpl. by rewrite IHw. }
  revert sy. induction h as [|h IH]; intros sy; [simpl; lia|].
  simpl. rewrite length_app, IH, Hrow. lia.
Qed.

Lemma getRegionBrightness_average d img i :
  0 < (width d / cols d) * (height d / rows d) →
  getRegionBrightness d img i
  = (Qc_sum (pixelBrightness img <$> cellPixels d i)
     / Qc_of_nat (length (cellPixels d i)))%Qc.
Proof.
  intros Hpos. unfold getRegionBrightness. rewrite sumRegion_spec.
  rewrite decide_True by done. by rewrite length_cellPixels.
Qed.

Lemma elem_of_cellPixels d i x y :
  (x, y) ∈ cellPixels d i
  ↔ i mod cols d * (width d / cols d) ≤ x < i mod cols d * (width d / cols d) + width d / cols d
    ∧ i / cols d * (height d / rows d) ≤ y
        < i / cols d * (height d / rows d) + height d / rows d.
Proof.
  unfold cellPixels. rewrite list_elem_of_bind. split.
  - intros (y' & Hx & Hy). apply list_elem_of_bind in Hx as (x' & Hx & Hx').
    apply list_elem_of_singleton in Hx. injection Hx as -> ->.
    apply elem_of_seq in Hx', Hy. lia.
  - intros [Hx Hy]. exists y. split; [|apply elem_of_seq; lia].
    apply list_elem_of_bind. exists x. split; [by apply list_elem_of_singleton|].
    apply elem_of_seq; lia.
Qed.

(** A channel is a byte. *)
Lemma channel_range data idx : (0 ≤ channel data idx ≤ Qc_of_Z 255)%Qc.
Proof.
  unfold channel. destruct (data !! idx) as [b|].
  - unfold Qc_of_byte. pose proof (Byte.to_N_bounded b).
    rewrite <- Z2Qc_inj_0. split; rewrite <- Z2Qc_inj_le; lia.
  - rewrite <- Z2Qc_inj_0. split; rewrite <- Z2Qc_inj_le; lia.
Qed.

Lemma pixelBrightness_range img xy : (0 ≤ pixelBrightness img xy ≤ Qc_of_Z 255)%Qc.
Proof.
  unfold pixelBrightness. simpl.
  set (idx := (xy.2 * iwidth img + xy.1) * 4).
  pose proof (channel_range (data img) idx) as [Hr0 Hr].
  pose proof (channel_range (data img) (idx + 1)) as [Hg0 Hg].
  pose proof (channel_range (data img) (idx + 2)) as [Hb0 Hb].
  set (r := channel (data img) idx) in *.
  set (g := channel (data img) (idx + 1)) in *.
  set (b := channel (data img) (idx + 2)) in *.
  assert (0 < / Qc_of_Z 3)%Qc as H3.
  { apply Qcinv_pos. rewrite <- Z2Qc_inj_0. rewrite <- Z2Qc_inj_lt. lia. }
  unfold Qcdiv. split.
  - apply Qcmult_nonneg_nonneg; [|by apply Qclt_le_weak].
    rewrite <- (Qcplus_0_r 0). apply Qcplus_le_compat; [|done].
    rewrite <- (Qcplus_0_r 0). by apply Qcplus_le_compat.
  - replace (Qc_of_Z 255) with ((Qc_of_Z 255 + Qc_of_Z 255 + Qc_of_Z 255) * / Qc_of_Z 3)%Qc.
    + apply Qcmult_le_mono_nonneg_r; [by apply Qclt_le_weak|].
      apply Qcplus_le_compat; [|done]. by apply Qcplus_le_compat.
    + rewrite <- !Z2Qc_inj_add. apply Qc_is_canon. reflexivity.
Qed.

Lemma Qc_sum_range (l : list Qc) (hi : Qc) :
  Forall (λ x, 0 ≤ x ≤ hi)%Qc l →
  (0 ≤ Qc_sum l ≤ hi * Qc_of_nat (length l))%Qc.
Proof.
  induction 1 as [|x l [Hx0 Hx] Hl [IH0 IH]].
  - change (Qc_of_nat (length [])) with (Qc_of_Z 0).
    rewrite Z2Qc_inj_0, Qcmult_0_r. done.
  - cbn [Qc_sum foldr length]. fold (Qc_sum l). split.
    + rewrite <- (Qcplus_0_r 0). by apply Qcplus_le_compat.
    + unfold Qc_of_nat in *. rewrite Nat2Z.inj_succ, <- Z.add_1_l, Z2Qc_inj_add.
      rewrite Z2Qc_inj_1, Qcmult_plus_distr_r, Qcmult_1_r.
      by apply Qcplus_le_compat.
Qed.

Lemma getRegionBrightness_range d img i :
  (0 ≤ getRegionBrightness d img i ≤ Qc_of_Z 255)%Qc.
Proof.
  destruct (decide (0 < (width d / cols d) * (height d / rows d))) as [Hpos|Hz].
  2:{ unfold getRegionBrightness. rewrite sumRegion_spec, decide_False by done.
      rewrite <- Z2Qc_inj_0. split; rewrite <- Z2Qc_inj_le; lia. }
  rewrite getRegionBrightness_average by done.
  rewrite <- (length_cellPixels d i) in Hpos.
  set (l := pixelBrightness img <$> cellPixels d i).
  assert (length (cellPixels d i) = length l) as Hlen by (unfold l; by rewrite length_fmap).
  rewrite Hlen in *.
  destruct (Qc_sum_range l (Qc_of_Z 255)) as [H0 H1].
  { apply Forall_forall. intros x Hx. unfold l in Hx.
    apply list_elem_of_fmap in Hx as (xy & -> & _). apply pixelBrightness_range. }
  assert (0 < Qc_of_nat (length l))%Qc as Hn.
  { unfold Qc_of_nat. rewrite <- Z2Qc_inj_0. rewrite <- Z2Qc_inj_lt. lia. }
  assert (0 < / Qc_of_nat (length l))%Qc as Hi by (by apply Qcinv_pos).
  unfold Qcdiv. split.
  - apply Qcmult_nonneg_nonneg; [done|by apply Qclt_le_weak].
  - replace (Qc_of_Z 255)
      with (Qc_of_Z 255 * Qc_of_nat (length l) * / Qc_of_nat (length l))%Qc.
    + apply Qcmult_le_mono_nonneg_r; [by apply Qclt_le_weak|done].
    + rewrite <- Qcmult_assoc, Qcmult_inv_r, Qcmult_1_r; [done|].
      intros Heq. rewrite Heq in Hn. by apply Qclt_not_eq in Hn.
Qed.





(** ** Sequences of calls *)

Lemma run_cons q ticks d :
  fst (run (q :: ticks) d) = fst (detect q d) :: fst (run ticks (snd (detect q d))).
Proof.
  simpl. destruct (detect q d) as [r d1]. simpl. by destruct (run ticks d1).
Qed.


(** A cell whose cooldown has not run out when a call is made is not
    reported by it, and keeps its cooldown. *)
Lemma detect_blocked q d i K :
  cooldowns d !! i = Some K → (clock q < K)%Z →
  (i ∉ triggers (fst (detect q d))) ∧ cooldowns (snd (detect q d)) !! i = Some K.
Proof.
  intros HK Hq.
  destruct (detect_cases q d) as [Hskip|[img Hp]].
  - destruct (detect_skip q d Hskip) as (-> & _ & _ & -> & _).
    split; [apply not_elem_of_nil|done].
  - destruct (detect_loop_inv q d img Hp) as (d1 & -> & _ & -> & _ & _ & Hco).
    assert (cellFires img (clock q) d i = false) as Hf.
    { apply not_true_is_false. rewrite cellFires_true. unfold cooldownAt.
      rewrite HK. simpl. lia. }
    split.
    + simpl. rewrite list_elem_of_filter. intros [? _]. congruence.
    + rewrite Hco, decide_False; [done|]. intros [_ ?]. congruence.
Qed.

Lemma run_blocked later d i K :
  cooldowns d !! i = Some K →
  Forall (λ q, (clock q < K)%Z) later →
  Forall (λ r, i ∉ triggers r) (fst (run later d)).
Proof.
  revert d. induction later as [|q later IH]; intros d HK Hall.
  - constructor.
  - apply Forall_cons in Hall as [Hq Hall].
    destruct (detect_blocked q d i K HK Hq) as [Hn HK'].
    rewrite run_cons. constructor; [done|]. by apply IH.
Qed.

(** C3.  When cell [i] triggers in a call made at time [T] with
    [cooldownMs = C], no sequence of later calls of [detect] made at times
    strictly before [T + C] reports cell [i], whatever the frames are. *)
Theorem cooldown_blocks_retrigger (p : Platform) (d : MotionDetector) (i : nat)
    (later : list Platform) :
  cells_wf d →
  i ∈ triggers (fst (detect p d)) →
  Forall (λ q, (clock q < clock p + cooldownMs d)%Z) later →
  Forall (λ r, i ∉ triggers r) (fst (run later (snd (detect p d)))).
Proof.
  intros Hwf Hi Hlater.
  apply run_blocked with (K := (clock p + cooldownMs d)%Z); [|done].
  destruct (detect_cases p d) as [Hskip|[img Hp]].
  - destruct (detect_skip p d Hskip) as (Hr & _). rewrite Hr in Hi.
    by apply not_elem_of_nil in Hi.
  - destruct (detect_loop_inv p d img Hp) as (d1 & Hr & _ & -> & _ & _ & Hco).
    rewrite Hr in Hi. simpl in Hi.
    apply list_elem_of_filter in Hi as [Hf Hi].
    rewrite Hco, decide_True by done.
    apply elem_of_seq in Hi. destruct Hwf as [_ Hwc].
    destruct (lookup_lt_is_Some_2 (cooldowns d) i) as [z ->]; [lia|done].
Qed.

(** ** Determinism *)

Lemma detect_keeps_bound p d img :
  processes p d img →
  video (snd (detect p d)) = video d ∧ (ctx (snd (detect p d)) = None ↔ ctx d = None).
Proof.
  intros Hp.
  destruct (detect_success p d img Hp)
    as (dr & _ & _ & _ & _ & _ & _ & _ & Hv & Hc & Hvr & Hcr).
  pose proof (detectLoop_inv img (clock p) dr) as [_ _ Hctx Hvid _ _ _].
  rewrite Hv, Hvid, Hvr, Hc, Hctx, Hcr. split; [done|].
  by rewrite fmap_None.
Qed.



(** ** The setters *)

(** C8.  For every integer [v], [setThreshold(v)] leaves [threshold] at
    [v] clamped to [1, 100] and [setCooldown(v)] leaves [cooldownMs] at [v]
    clamped to [50, 1000]: the value itself inside the interval, the nearer
    end outside it.  So [setThreshold(0)] gives 1, [setThreshold(1000)]
    gives 100, [setCooldown(10)] gives 50 and [setCooldown(5000)] gives
    1000.  The state of the cells is not touched. *)
Theorem setters_clamp (v : Z) (d : MotionDetector) :
  (1 ≤ threshold (setThreshold v d) ≤ 100
   ∧ (v < 1 → threshold (setThreshold v d) = 1)
   ∧ (1 ≤ v ≤ 100 → threshold (setThreshold v d) = v)
   ∧ (100 < v → threshold (setThreshold v d) = 100)
   ∧ 50 ≤ cooldownMs (setCooldown v d) ≤ 1000
   ∧ (v < 50 → cooldownMs (setCooldown v d) = 50)
   ∧ (50 ≤ v ≤ 1000 → cooldownMs (setCooldown v d) = v)
   ∧ (1000 < v → cooldownMs (setCooldown v d) = 1000)
   ∧ threshold (setThreshold 0 d) = 1
   ∧ threshold (setThreshold 1000 d) = 100
   ∧ cooldownMs (setCooldown 10 d) = 50
   ∧ cooldownMs (setCooldown 5000 d) = 1000
   ∧ previousBrightness (setThreshold v d) = previousBrightness d
   ∧ cooldowns (setCooldown v d) = cooldowns d)%Z.
Proof.
  unfold setThreshold, setCooldown. simpl. split_and!; try reflexivity; lia.
Qed.

(** ** The source rectangle of the draw *)

(** Whatever the video, a call that works on a frame has drawn the whole
    of it into the whole canvas, mirrored. *)
Lemma detect_draws_whole_video p d img v c :
  processes p d img → video d = Some v → ctx d = Some c →
  ctx (snd (detect p d))
  = Some {| scaleX := scaleX c; saved := saved c;
            lastDraw := Some {|
              source := {| rx := 0; ry := 0; rw := Z.of_nat (videoWidth v);
                           rh := Z.of_nat (videoHeight v) |};
              dest := {| rx := - Z.of_nat (width d); ry := 0;
                         rw := Z.of_nat (width d); rh := Z.of_nat (height d) |};
              xscale := (scaleX c * -1)%Z |} |}.
Proof.
  intros Hp Hv Hc.
  destruct (detect_success p d img Hp)
    as (dr & _ & _ & _ & _ & _ & _ & _ & _ & Hc' & _ & Hcr).
  pose proof (detectLoop_inv img (clock p) dr) as [_ _ Hctx _ _ _ _].
  rewrite Hc', Hctx, Hcr, Hc, Hv. done.
Qed.

Lemma detector_wide_processes :
  processes tick_wide detector_wide (uniformFrame 64 48 bright).
Proof.
  unfold processes, HAVE_CURRENT_DATA.
  split_and!; [discriminate|discriminate|cbn; lia|reflexivity].
Qed.

(** C2 (the code at the failing input).  Bound to a 1920 by 1080 video,
    the detector with the 64 by 48 target draws the whole frame, rectangle
    (0, 0, 1920, 1080), into the whole canvas, mirrored.  A centre crop to
    the 4:3 ratio of the target would sample the rectangle
    (240, 0, 1440, 1080); the frame is 16:9, so it is squeezed
    horizontally. *)
Theorem detect_stretches_wide_source :
  video detector_wide = Some {| videoWidth := 1920; videoHeight := 1080 |}
  ∧ width detector_wide = 64 ∧ height detector_wide = 48
  ∧ (lastDraw <$> ctx (snd (detect tick_wide detector_wide)))
    = Some (Some {| source := {| rx := 0; ry := 0; rw := 1920; rh := 1080 |};
                    dest := {| rx := -64; ry := 0; rw := 64; rh := 48 |};
                    xscale := -1 |})
  ∧ spec_centerCrop 1920 1080 64 48
    = {| rx := 240; ry := 0; rw := 1440; rh := 1080 |}
  ∧ (1920 * 48 ≠ 1080 * 64)%Z.
Proof.
  split_and!.
  - reflexivity.
  - reflexivity.
  - reflexivity.
  - exact (f_equal (fmap lastDraw)
             (detect_draws_whole_video tick_wide detector_wide
                (uniformFrame 64 48 bright) wideCamera fresh_context
                detector_wide_processes eq_refl eq_refl)).
  - reflexivity.
  - done.
Qed.

(** ** The scenes *)

Lemma detector0_processes t b :
  processes (tick t b) detector0 (uniformFrame 6 6 b).
Proof.
  unfold processes, HAVE_CURRENT_DATA.
  split_and!; [discriminate|discriminate|cbn; lia|reflexivity].
Defined.

Lemma detector0_wf : cells_wf detector0.
Proof. split; reflexivity. Defined.



Lemma detect_updates_previousBrightness_witness :
  processes (tick 1000 bright) detector0 (uniformFrame 6 6 bright)
  ∧ cells_wf detector0
  ∧ length (previousBrightness (snd (detect (tick 1000 bright) detector0)))
    = cellCount detector0
  ∧ ∀ i, i < cellCount detector0 →
      previousBrightness (snd (detect (tick 1000 bright) detector0)) !! i
      = Some (getRegionBrightness detector0 (uniformFrame 6 6 bright) i).
Proof.
  exact (conj (detector0_processes 1000 bright) (conj detector0_wf
    (detect_updates_previousBrightness _ _ _
       (detector0_processes 1000 bright) detector0_wf))).
Defined.

Lemma detect_skips_without_frame_witness :
  (video detector0 = None ∨ ctx detector0 = None
   ∨ readyState (tick_unready 1000) < HAVE_CURRENT_DATA
   ∨ (∃ e, frame (tick_unready 1000) = DrawThrows e)
   ∨ (∃ e, frame (tick_unready 1000) = ReadThrows e))
  ∧ fst (detect (tick_unready 1000) detector0) = Normal []
  ∧ previousBrightness (snd (detect (tick_unready 1000) detector0))
    = previousBrightness detector0
  ∧ cooldowns (snd (detect (tick_unready 1000) detector0)) = cooldowns detector0.
Proof.
  assert (video detector0 = None ∨ ctx detector0 = None
   ∨ readyState (tick_unready 1000) < HAVE_CURRENT_DATA
   ∨ (∃ e, frame (tick_unready 1000) = DrawThrows e)
   ∨ (∃ e, frame (tick_unready 1000) = ReadThrows e)) as H.
  { right; right; right; left. exists InvalidStateError. reflexivity. }
  exact (conj H (detect_skips_without_frame _ _ H)).
Defined.

Lemma cooldown_blocks_retrigger_witness :
  cells_wf detector0
  ∧ 4 ∈ triggers (fst (detect (tick 1000 bright) detector0))
  ∧ Forall (λ q, (clock q < clock (tick 1000 bright) + cooldownMs detector0)%Z)
      [tick 1100 dark; tick 1249 bright]
  ∧ Forall (λ r, 4 ∉ triggers r)
      (fst (run [tick 1100 dark; tick 1249 bright]
              (snd (detect (tick 1000 bright) detector0)))).
Proof.
  assert (4 ∈ triggers (fst (detect (tick 1000 bright) detector0))) as H1.
  { vm_compute. do 4 apply list_elem_of_further. apply list_elem_of_here. }
  assert (Forall (λ q, (clock q < clock (tick 1000 bright) + cooldownMs detector0)%Z)
            [tick 1100 dark; tick 1249 bright]) as H2.
  { repeat constructor; vm_compute; reflexivity. }
  exact (conj detector0_wf (conj H1 (conj H2
    (cooldown_blocks_retrigger _ _ _ _ detector0_wf H1 H2)))).
Defined.



End MotionProps.

(** * Properties of the synth drum engine *)

Module AudioProps.
Import Audio.

Local Open Scope nat_scope.

Lemma play_completes soundName s :
  gain_bound s →
  fst (play soundName s) = Normal tt
  ∧ masterGain (drums (snd (play soundName s))) = masterGain (drums s)
  ∧ (audioContext (drums (snd (play soundName s))) = None
     ↔ audioContext (drums s) = None).
Proof.
  destruct s as [[[a|] nb [g|]] con ist]; unfold gain_bound; cbn; intros H.
  - unfold play. run_eff. destruct (state a).
    all: repeat (destruct (String.eqb soundName _); [run_eff; by intuition|]);
      run_eff; by intuition.
  - exfalso. by apply H.
  - done.
  - done.
Qed.

Lemma play_unbound soundName s :
  audioContext (drums s) = None → play soundName s = (Normal tt, s).
Proof. intros H. unfold play. run_eff. by rewrite H. Qed.

Lemma play_unknown soundName s :
  soundName ∉ voices →
  chainsOf (snd (play soundName s)) = chainsOf s
  ∧ (audioContext (drums s) ≠ None →
     console (snd (play soundName s))
     = console s ++ ["Unknown sound: " ++ soundName]%string)
  ∧ masterGain (drums (snd (play soundName s))) = masterGain (drums s).
Proof.
  intros Hn.
  assert (∀ v, v ∈ voices → String.eqb soundName v = false) as Hv.
  { intros v Hin. apply String.eqb_neq. intros ->. done. }
  unfold play, chainsOf. destruct s as [[[a|] nb mg] con ist]; run_eff; [|done].
  rewrite !Hv
    by (unfold voices; repeat first [apply list_elem_of_here|apply list_elem_of_further]).
  destruct (state a); run_eff; done.
Qed.

Lemma step_gain_bound s e : gain_bound s → gain_bound (step s e).
Proof.
  intros H. destruct e as [st rate| |dt|name|v|]; cbn.
  - unfold gain_bound, init. by destruct st.
  - unfold gain_bound, init_resumed in *. cbn. rewrite fmap_None. done.
  - unfold gain_bound, advance in *. cbn. rewrite fmap_None. done.
  - destruct (play_completes name s H) as (_ & Hg & Ha).
    unfold gain_bound. rewrite Hg, Ha. done.
  - unfold gain_bound, setVolume in *.
    destruct (masterGain (drums s)) eqn:E; cbn; [done|].
    rewrite E. exact H.
  - unfold gain_bound, dispose in *.
    destruct (audioContext (drums s)) eqn:E; cbn; [|rewrite E; exact H].
    intros Hn. by destruct Hn.
Qed.

Lemma after_gain_bound events : gain_bound (after events).
Proof.
  unfold after. induction events as [|e events IH] using rev_ind.
  - unfold gain_bound. cbn. congruence.
  - rewrite foldl_snoc. by apply step_gain_bound.
Qed.

Lemma dispose_unbinds s : audioContext (drums (dispose s)) = None.
Proof. unfold dispose. by destruct (audioContext (drums s)) eqn:E. Qed.

(** C7 (as amended).  In every state the engine can reach, [play] returns
    without throwing, for every string.  A name outside kick, snare, hihat,
    clap, tom1, tom2, crash, ride, synth builds no chain, and on a bound
    context it is reported on the console.  A call made while no audio
    context is bound, which is the case before [init()] is called and
    after [dispose()], changes nothing at all. *)
Theorem play_never_throws (events : list Event) (soundName : string) :
  fst (play soundName (after events)) = Normal tt
  ∧ (soundName ∉ voices →
     chainsOf (snd (play soundName (after events))) = chainsOf (after events)
     ∧ (audioContext (drums (after events)) ≠ None →
        console (snd (play soundName (after events)))
        = console (after events) ++ ["Unknown sound: " ++ soundName]%string))
  ∧ (audioContext (drums (after events)) = None →
     play soundName (after events) = (Normal tt, after events))
  ∧ audioContext (drums (after [])) = None
  ∧ audioContext (drums (after (events ++ [CallDispose]))) = None.
Proof.
  split_and!.
  - by apply play_completes, after_gain_bound.
  - intros Hn. destruct (play_unknown soundName (after events) Hn) as (? & ? & _). done.
  - apply play_unbound.
  - reflexivity.
  - unfold after. rewrite foldl_snoc. apply dispose_unbinds.
Qed.

(** C7 as the specification words it (a no-op until [init()] has
    completed), at a concrete call.  [init()] on a context that starts
    suspended has bound the context, the gain and the noise buffer and is
    waiting for [resume()]: it has not completed.  A call of [play("kick")]
    made then builds a chain. *)
Lemma play_while_init_awaits :
  initStatus (after [CallInit suspended 44100]) = AwaitingResume
  ∧ chainsOf (after [CallInit suspended 44100]) = []
  ∧ fst (play "kick" (after [CallInit suspended 44100])) = Normal tt
  ∧ length (chainsOf (snd (play "kick" (after [CallInit suspended 44100])))) = 1.
Proof. split_and!; reflexivity. Qed.

End AudioProps.

(** Linear arithmetic on [Qc], through [Q]. *)
Ltac qc_lra :=
  unfold Qcle, Qclt, Qcminus, Qcplus, Qcopp in *;
  cbn [this Q2Qc] in *;
  rewrite ?Qred_correct in *; lra.

(** * More on the motion detector *)

Module MotionExtra.
Import Motion MotionProps Scenario.

Local Open Scope nat_scope.

(** ** The constructor *)

Lemma or_nat_pos a dflt : 0 < dflt → 0 < or_nat a dflt.
Proof. intros H. destruct a as [[|n]|]; simpl; lia. Qed.

Lemma or_Z_nonzero a dflt : dflt ≠ 0%Z → or_Z a dflt ≠ 0%Z.
Proof. intros H. destruct a as [[| |]|]; simpl; done. Qed.

Lemma new_defaults (options : Options) :
  0 < width (new options) ∧ 0 < height (new options)
  ∧ 0 < cols (new options) ∧ 0 < rows (new options)
  ∧ cellCount (new options) = cols (new options) * rows (new options)
  ∧ threshold (new options) ≠ 0%Z ∧ cooldownMs (new options) ≠ 0%Z
  ∧ previousBrightness (new options) = replicate (cellCount (new options)) 0%Qc
  ∧ cooldowns (new options) = replicate (cellCount (new options)) 0%Z
  ∧ (o_width options = Some 0 → width (new options) = 64)
  ∧ (o_threshold options = Some 0%Z → threshold (new options) = 20%Z)
  ∧ (o_cooldownMs options = None → cooldownMs (new options) = 250%Z)
  ∧ video (new options) = None ∧ ctx (new options) = None.
Proof.
  unfold new; cbn. split_and!; try done.
  - apply or_nat_pos; lia.
  - apply or_nat_pos; lia.
  - apply or_nat_pos; lia.
  - apply or_nat_pos; lia.
  - by apply or_Z_nonzero.
  - by apply or_Z_nonzero.
  - by intros ->.
  - by intros ->.
  - by intros ->.
Qed.

(** ** What every call keeps *)

Lemma detect_same_config p d : same_config d (snd (detect p d)).
Proof.
  destruct (detect_cases p d) as [Hskip|[img Hp]].
  - by destruct (detect_skip p d Hskip) as (_ & ? & _).
  - by destruct (detect_loop_inv p d img Hp) as (d1 & _ & _ & _ & ? & _).
Qed.

Lemma same_config_grid d d' : same_config d d' → same_grid d d'.
Proof. intros (?&?&?&?&?&_). by repeat split. Qed.

Lemma call_same_grid d c : same_grid d (call d c).
Proof.
  destruct c as [v dbg|p|value|ms|]; simpl.
  - unfold init. destruct dbg; by repeat split.
  - apply same_config_grid, detect_same_config.
  - by repeat split.
  - by repeat split.
  - by repeat split.
Qed.

Lemma detect_previousBrightness_length p d :
  length (previousBrightness (snd (detect p d))) = length (previousBrightness d)
  ∧ length (cooldowns (snd (detect p d))) = length (cooldowns d).
Proof.
  destruct (detect_cases p d) as [Hskip|[img Hp]].
  - destruct (detect_skip p d Hskip) as (_ & _ & -> & -> & _). done.
  - destruct (detect_loop_inv p d img Hp) as (d1 & _ & -> & -> & _ & Hpr & Hco).
    split; apply same_domain_length; intros j.
    + rewrite Hpr. destruct (decide _); [|done]. by rewrite fmap_is_Some.
    + rewrite Hco. destruct (decide _); [|done]. by rewrite fmap_is_Some.
Qed.

Lemma detect_previousBrightness_range p d :
  Forall in_channel_range (previousBrightness d) →
  Forall in_channel_range (previousBrightness (snd (detect p d))).
Proof.
  intros Hall.
  destruct (detect_cases p d) as [Hskip|[img Hp]].
  - by destruct (detect_skip p d Hskip) as (_ & _ & -> & _).
  - destruct (detect_loop_inv p d img Hp) as (d1 & _ & -> & _ & _ & Hpr & _).
    apply Forall_lookup. intros j x Hj. rewrite Hpr in Hj.
    destruct (decide _).
    + apply fmap_Some in Hj as (y & _ & ->). apply getRegionBrightness_range.
    + by eapply (Forall_lookup_1 _ _ _ _ Hall).
Qed.

Lemma zero_in_channel_range : in_channel_range 0%Qc.
Proof.
  unfold in_channel_range. rewrite <- Z2Qc_inj_0.
  split; rewrite <- Z2Qc_inj_le; lia.
Qed.

Lemma history_state (options : Options) (calls : list Call) :
  same_grid (new options) (history options calls)
  ∧ cells_wf (history options calls)
  ∧ Forall in_channel_range (previousBrightness (history options calls)).
Proof.
  unfold history. induction calls as [|c calls IH] using rev_ind.
  - split_and!.
    + by repeat split.
    + split; cbn; by rewrite length_replicate.
    + cbn. apply Forall_replicate. apply zero_in_channel_range.
  - rewrite foldl_snoc. destruct IH as (Hcfg & [Hwp Hwc] & Hrange).
    set (d := foldl call (new options) calls) in *.
    assert (same_grid d (call d c)) as Hstep by apply call_same_grid.
    split_and!.
    + destruct Hcfg as (?&?&?&?&?), Hstep as (?&?&?&?&?).
      repeat split; congruence.
    + destruct Hstep as (_ & _ & _ & _ & Hn).
      assert (length (previousBrightness (call d c)) = length (previousBrightness d)
              ∧ length (cooldowns (call d c)) = length (cooldowns d)) as [Hlp Hlc].
      { destruct c as [v dbg|p|value|ms|]; simpl.
        - unfold init. by destruct dbg.
        - apply detect_previousBrightness_length.
        - done.
        - done.
        - by rewrite !length_replicate. }
      split; congruence.
    + destruct c as [v dbg|p|value|ms|]; simpl.
      * unfold init. by destruct dbg.
      * by apply detect_previousBrightness_range.
      * done.
      * done.
      * apply Forall_replicate, zero_in_channel_range.
Qed.

(** X1.  Whatever the options (dimensions absent or natural numbers,
    parameters absent or integers) and whatever calls of [init], [detect],
    [setThreshold], [setCooldown] and [reset] follow the constructor, the
    canvas and the grid stay as constructed with no dimension at 0 and
    [cellCount = cols * rows], both state arrays keep exactly [cellCount]
    entries, and every stored brightness lies between 0 and 255. *)
Theorem history_invariant (options : Options) (calls : list Call) :
  same_grid (new options) (history options calls)
  ∧ 0 < width (history options calls) ∧ 0 < height (history options calls)
  ∧ 0 < cols (history options calls) ∧ 0 < rows (history options calls)
  ∧ cellCount (history options calls)
    = cols (history options calls) * rows (history options calls)
  ∧ cells_wf (history options calls)
  ∧ Forall in_channel_range (previousBrightness (history options calls)).
Proof.
  destruct (history_state options calls) as (Hgrid & Hwf & Hrange).
  destruct (new_defaults options) as (Hw & Hh & Hc & Hr & Hn & _).
  pose proof Hgrid as (Ew & Eh & Ec & Er & En).
  split_and!; try done; congruence.
Qed.

(** ** After [reset()] *)



(** ** One cell does not see the others *)

(** X3.  What one call of [detect] does for cell [i] depends on the state
    of cell [i] alone: two detectors with the same configuration and the
    same [previousBrightness[i]] and [cooldowns[i]], whatever their other
    cells hold, agree on whether [i] triggers and on the new state of
    [i]. *)
Theorem cells_independent (p : Platform) (d1 d2 : MotionDetector) (img : ImageData)
    (i : nat) :
  processes p d1 img → processes p d2 img → same_config d1 d2 →
  previousBrightness d2 !! i = previousBrightness d1 !! i →
  cooldowns d2 !! i = cooldowns d1 !! i →
  (i ∈ triggers (fst (detect p d1)) ↔ i ∈ triggers (fst (detect p d2)))
  ∧ previousBrightness (snd (detect p d2)) !! i
    = previousBrightness (snd (detect p d1)) !! i
  ∧ cooldowns (snd (detect p d2)) !! i = cooldowns (snd (detect p d1)) !! i.
Proof.
  intros Hp1 Hp2 Hcfg Hprev Hcool.
  destruct (detect_loop_inv p d1 img Hp1) as (e1 & -> & -> & -> & _ & Hpr1 & Hco1).
  destruct (detect_loop_inv p d2 img Hp2) as (e2 & -> & -> & -> & _ & Hpr2 & Hco2).
  assert (cellFires img (clock p) d2 i = cellFires img (clock p) d1 i) as Hf
    by (by apply cellFires_ext).
  assert (cellCount d2 = cellCount d1) as Hn by apply Hcfg.
  cbn [triggers]. split_and!.
  - rewrite !list_elem_of_filter, Hf, Hn. done.
  - rewrite Hpr1, Hpr2, Hn, Hprev. by rewrite (getRegionBrightness_config d1 d2).
  - rewrite Hco1, Hco2, Hn, Hcool, Hf.
    destruct Hcfg as (_ & _ & _ & _ & _ & _ & ->). done.
Qed.

(** ** A still image *)

Lemma filter_none {A} (P : A → Prop) `{∀ x, Decision (P x)} (l : list A) :
  (∀ x, x ∈ l → ¬ P x) → filter P l = [].
Proof.
  induction l as [|x l IH]; intros Hall; [done|].
  rewrite filter_cons, decide_False by (apply Hall; left).
  apply IH. intros y Hy. apply Hall. by right.
Qed.

(** X4.  With a threshold that is not negative, a frame identical to the
    one just worked on triggers nothing, whatever the clock. *)
Theorem still_frame_silent (p1 p2 : Platform) (d : MotionDetector) (img : ImageData) :
  processes p1 d img → cells_wf d →
  HAVE_CURRENT_DATA ≤ readyState p2 → frame p2 = Pixels img →
  (0 ≤ threshold d)%Z →
  fst (detect p2 (snd (detect p1 d))) = Normal [].
Proof.
  intros Hp1 [Hwp _] Hr2 Hf2 Hthr.
  destruct (detect_loop_inv p1 d img Hp1) as (e1 & _ & Hp' & _ & Hcfg & Hpr & _).
  destruct (detect_keeps_bound p1 d img Hp1) as [Hv Hc].
  assert (processes p2 (snd (detect p1 d)) img) as Hp2.
  { destruct Hp1 as (? & ? & _). unfold processes. rewrite Hv, Hc. done. }
  destruct (detect_loop_inv p2 _ img Hp2) as (e2 & -> & _).
  f_equal. apply filter_none. intros i Hi. apply elem_of_seq in Hi.
  pose proof Hcfg as (Hw & Hh & Hco & Hro & Hn & Hth & _).
  rewrite cellFires_true. intros [Hlt _]. revert Hlt.
  unfold brightnessDelta, prevAt. rewrite Hp', Hpr, Hth.
  rewrite decide_True by (apply elem_of_seq; lia).
  destruct (lookup_lt_is_Some_2 (previousBrightness d) i) as [z ->]; [lia|].
  cbn. rewrite (getRegionBrightness_config d (snd (detect p1 d))) by done.
  replace (getRegionBrightness d img i - getRegionBrightness d img i)%Qc
    with 0%Qc by ring.
  rewrite Qcabs_pos by apply Qcle_refl.
  rewrite <- Z2Qc_inj_0, <- Z2Qc_inj_lt. lia.
Qed.

(** ** The transform of the canvas *)

(** X5.  With nothing saved on the context, as [init] leaves it, every
    call of [detect] gives the context back with the scale it had and
    nothing saved: the mirror transform does not outlive the call, also
    when [drawImage] or [getImageData] throws. *)
Theorem detect_restores_transform (p : Platform) (d : MotionDetector) (c : Context2D) :
  ctx d = Some c → saved c = [] →
  ∃ c', ctx (snd (detect p d)) = Some c' ∧ scaleX c' = scaleX c ∧ saved c' = [].
Proof.
  intros Hc Hs.
  destruct (decide (video d = None ∨ readyState p < HAVE_CURRENT_DATA)) as [Hg|Hg].
  { exists c. unfold detect. unfold mbind, Eff_bind, eff_bind, get_state.
    destruct Hg as [Hv|Hr].
    - rewrite bool_decide_eq_true_2 by (by left). done.
    - destruct (bool_decide (video d = None ∨ ctx d = None)); [done|].
      rewrite bool_decide_eq_true_2 by done. done. }
  assert (video d ≠ None ∧ HAVE_CURRENT_DATA ≤ readyState p) as [Hv Hr].
  { split; [tauto|]. destruct (decide (HAVE_CURRENT_DATA ≤ readyState p)); [done|].
    exfalso. apply Hg. right. lia. }
  destruct (frame p) as [e|e|img] eqn:Hf.
  - exists c. unfold detect.
    unfold mbind, Eff_bind, eff_bind, get_state.
    rewrite bool_decide_eq_false_2 by (rewrite Hc; intros [?|?]; done).
    rewrite bool_decide_eq_false_2 by lia.
    unfold try_catch, render, ctx_save, ctx_scale, ctx_drawImage, ctx_restore,
      ctx_getImageData, with_ctx, modify, throw.
    unfold mbind, Eff_bind, eff_bind, get_state, mret, Eff_ret, eff_ret.
    rewrite Hf. cbn. rewrite Hc. cbn. split; [|done].
    destruct c as [sx sv ld]. cbn in *. by subst.
  - eexists. unfold detect.
    unfold mbind, Eff_bind, eff_bind, get_state.
    rewrite bool_decide_eq_false_2 by (rewrite Hc; intros [?|?]; done).
    rewrite bool_decide_eq_false_2 by lia.
    unfold try_catch, render, ctx_save, ctx_scale, ctx_drawImage, ctx_restore,
      ctx_getImageData, with_ctx, modify, throw.
    unfold mbind, Eff_bind, eff_bind, get_state, mret, Eff_ret, eff_ret.
    rewrite Hf. cbn. rewrite Hc. cbn. rewrite Hs. cbn. done.
  - assert (processes p d img) as Hp by (unfold processes; rewrite Hc; done).
    destruct (video d) as [v|] eqn:Ev; [|done].
    rewrite (detect_draws_whole_video p d img v c Hp Ev Hc).
    eexists. split; [done|]. done.
Qed.

(** ** The geometry of the cells, for every canvas and grid *)

(** X6.  For a grid with columns and rows and a cell index below
    [cols * rows], every pixel [getRegionBrightness] visits lies on the
    canvas, and on image data of the size of the canvas the three channels
    it reads are inside the array. *)
Theorem cell_reads_in_range (d : MotionDetector) (img : ImageData) (i x y : nat) :
  0 < cols d → 0 < rows d → i < cols d * rows d →
  iwidth img = width d → length (data img) = 4 * width d * height d →
  (x, y) ∈ cellPixels d i →
  x < width d ∧ y < height d
  ∧ (y * iwidth img + x) * 4 + 2 < length (data img).
Proof.
  intros Hc Hr Hi Hw Hlen Hin. apply elem_of_cellPixels in Hin as [Hx Hy].
  assert (i mod cols d < cols d) as Hcol by (apply Nat.mod_upper_bound; lia).
  assert (i / cols d < rows d) as Hrow
    by (apply Nat.Div0.div_lt_upper_bound; lia).
  pose proof (Nat.Div0.mul_div_le (width d) (cols d)) as Hwd.
  pose proof (Nat.Div0.mul_div_le (height d) (rows d)) as Hhd.
  assert (x < width d) as Hxw by nia.
  assert (y < height d) as Hyh by nia.
  split_and!; [done|done|]. rewrite Hw, Hlen. nia.
Qed.

(** X7.  On every canvas and grid, two different cells share no pixel. *)
Theorem cells_disjoint (d : MotionDetector) (i j x y : nat) :
  0 < cols d →
  (x, y) ∈ cellPixels d i → (x, y) ∈ cellPixels d j → i = j.
Proof.
  intros Hc Hi Hj.
  apply elem_of_cellPixels in Hi as [Hix Hiy].
  apply elem_of_cellPixels in Hj as [Hjx Hjy].
  assert (i mod cols d = j mod cols d) as Hcol by nia.
  assert (i / cols d = j / cols d) as Hrow by nia.
  rewrite (Nat.div_mod_eq i (cols d)), (Nat.div_mod_eq j (cols d)). congruence.
Qed.

(** ** Brightness from the pixels *)


(** X9.  On a canvas narrower than the number of columns, or lower than
    the number of rows, the cells have no pixel and the brightness of every
    cell is 0 (the guard on [pixelCount]). *)
Theorem empty_cell_brightness (d : MotionDetector) (img : ImageData) (i : nat) :
  width d < cols d ∨ height d < rows d →
  cellPixels d i = [] ∧ getRegionBrightness d img i = 0%Qc.
Proof.
  intros H.
  assert (width d / cols d * (height d / rows d) = 0) as Hz.
  { destruct H as [H|H]; rewrite (Nat.div_small _ _ H); lia. }
  split.
  - apply length_zero_iff_nil. by rewrite length_cellPixels.
  - unfold getRegionBrightness. rewrite sumRegion_spec, Hz. done.
Qed.

(** X10.  The brightness of a cell reads the three colour channels of the
    pixels of that cell and nothing else: two frames of the same width
    that agree there, whatever their alpha channels and their other
    pixels, give the cell the same brightness. *)
Theorem brightness_reads_cell_colours (d : MotionDetector) (img1 img2 : ImageData)
    (i : nat) :
  iwidth img1 = iwidth img2 →
  (∀ x y k, (x, y) ∈ cellPixels d i → k < 3 →
     data img1 !! ((y * iwidth img1 + x) * 4 + k)
     = data img2 !! ((y * iwidth img1 + x) * 4 + k)) →
  getRegionBrightness d img1 i = getRegionBrightness d img2 i.
Proof.
  intros Hw Hsame. unfold getRegionBrightness. rewrite !sumRegion_spec.
  fold (cellPixels d i).
  assert ((pixelBrightness img1 <$> cellPixels d i)
          = (pixelBrightness img2 <$> cellPixels d i)) as ->; [|done].
  apply list_fmap_ext. intros n [x y] Hxy.
  apply list_elem_of_lookup_2 in Hxy.
  unfold pixelBrightness, channel. cbn [fst snd]. rewrite <- Hw.
  pose proof (Hsame x y 0 Hxy) as H0. rewrite Nat.add_0_r in H0.
  rewrite H0, (Hsame x y 1 Hxy), (Hsame x y 2 Hxy) by lia. done.
Qed.

(** ** The size of a change *)

(** X11.  In every state a detector can reach, the change of brightness
    of a cell is at most 255 for every frame; so with a threshold of 255
    or more [detect] returns the empty result. *)
Theorem delta_bounded (options : Options) (calls : list Call) (p : Platform)
    (img : ImageData) (i : nat) :
  (brightnessDelta (history options calls) img i ≤ Qc_of_Z 255)%Qc
  ∧ ((255 ≤ threshold (history options calls))%Z →
     fst (detect p (history options calls)) = Normal []).
Proof.
  assert (∀ img i, (brightnessDelta (history options calls) img i ≤ Qc_of_Z 255)%Qc) as Hd.
  { clear img i. intros img i.
    destruct (history_state options calls) as (_ & _ & Hrange).
    set (d := history options calls) in *.
    unfold brightnessDelta.
    pose proof (getRegionBrightness_range d img i) as [Hb0 Hb1].
    assert (in_channel_range (prevAt d i)) as [Hp0 Hp1].
    { unfold prevAt. destruct (previousBrightness d !! i) as [z|] eqn:E; cbn.
      - by eapply (Forall_lookup_1 _ _ _ _ Hrange).
      - apply zero_in_channel_range. }
    apply Qcabs_diff_Qcle_condition. split; (unfold in_channel_range in *; qc_lra). }
  split; [apply Hd|].
  intros Hthr. set (d := history options calls) in *.
  destruct (detect_cases p d) as [Hskip|[im Hp]].
  - by apply detect_skip.
  - destruct (detect_loop_inv p d im Hp) as (d1 & -> & _).
    f_equal. apply filter_none. intros j _. rewrite cellFires_true.
    intros [Hlt _]. specialize (Hd im j).
    assert (Qc_of_Z 255 ≤ Qc_of_Z (threshold d))%Qc as Hq
      by (by rewrite <- Z2Qc_inj_le).
    (unfold in_channel_range in *; qc_lra).
Qed.

(** ** The debug overlay *)



(** ** The extras on concrete scenes *)



(** The detector of the scenes with another cooldown in cell 0. *)
Lemma detector0_other_processes :
  processes (tick 1000 bright)
    (set_cooldowns (<[0 := 5000%Z]> (cooldowns detector0)) detector0)
    (uniformFrame 6 6 bright).
Proof.
  unfold processes, HAVE_CURRENT_DATA.
  split_and!; [discriminate|discriminate|cbn; lia|reflexivity].
Defined.

Lemma cells_independent_witness :
  processes (tick 1000 bright) detector0 (uniformFrame 6 6 bright)
  ∧ processes (tick 1000 bright)
      (set_cooldowns (<[0 := 5000%Z]> (cooldowns detector0)) detector0)
      (uniformFrame 6 6 bright)
  ∧ same_config detector0
      (set_cooldowns (<[0 := 5000%Z]> (cooldowns detector0)) detector0)
  ∧ (4 ∈ triggers (fst (detect (tick 1000 bright) detector0))
     ↔ 4 ∈ triggers (fst (detect (tick 1000 bright)
           (set_cooldowns (<[0 := 5000%Z]> (cooldowns detector0)) detector0)))).
Proof.
  assert (same_config detector0
            (set_cooldowns (<[0 := 5000%Z]> (cooldowns detector0)) detector0)) as Hc
    by (by repeat split).
  pose proof (cells_independent (tick 1000 bright) detector0
    (set_cooldowns (<[0 := 5000%Z]> (cooldowns detector0)) detector0)
    (uniformFrame 6 6 bright) 4
    (detector0_processes 1000 bright) detector0_other_processes Hc eq_refl eq_refl)
    as (H & _).
  exact (conj (detector0_processes 1000 bright) (conj detector0_other_processes
           (conj Hc H))).
Defined.

Lemma still_frame_silent_witness :
  processes (tick 1000 bright) detector0 (uniformFrame 6 6 bright)
  ∧ cells_wf detector0
  ∧ HAVE_CURRENT_DATA ≤ readyState (tick 1001 bright)
  ∧ frame (tick 1001 bright) = Pixels (uniformFrame 6 6 bright)
  ∧ (0 ≤ threshold detector0)%Z
  ∧ fst (detect (tick 1001 bright) (snd (detect (tick 1000 bright) detector0)))
    = Normal [].
Proof.
  assert (HAVE_CURRENT_DATA ≤ readyState (tick 1001 bright)) as Hr
    by (unfold HAVE_CURRENT_DATA; cbn; lia).
  assert (0 ≤ threshold detector0)%Z as Ht by (cbn; lia).
  exact (conj (detector0_processes 1000 bright) (conj detector0_wf (conj Hr
    (conj eq_refl (conj Ht
      (still_frame_silent (tick 1000 bright) (tick 1001 bright) detector0
         (uniformFrame 6 6 bright) (detector0_processes 1000 bright) detector0_wf
         Hr eq_refl Ht)))))).
Defined.

Lemma detect_restores_transform_witness :
  ctx detector0 = Some fresh_context ∧ saved fresh_context = []
  ∧ ∃ c', ctx (snd (detect (tick_unready 1000) detector0)) = Some c'
          ∧ scaleX c' = scaleX fresh_context ∧ saved c' = [].
Proof.
  exact (conj eq_refl (conj eq_refl
    (detect_restores_transform (tick_unready 1000) detector0 fresh_context
       eq_refl eq_refl))).
Defined.

Lemma centre_pixel_in_cell_4 : (2, 2) ∈ cellPixels detector0 4.
Proof. apply elem_of_cellPixels. cbn. lia. Defined.

Lemma cell_reads_in_range_witness :
  0 < cols detector0 ∧ 0 < rows detector0 ∧ 4 < cols detector0 * rows detector0
  ∧ iwidth (uniformFrame 6 6 bright) = width detector0
  ∧ length (data (uniformFrame 6 6 bright)) = 4 * width detector0 * height detector0
  ∧ (2, 2) ∈ cellPixels detector0 4
  ∧ 2 < width detector0 ∧ 2 < height detector0
  ∧ (2 * iwidth (uniformFrame 6 6 bright) + 2) * 4 + 2
    < length (data (uniformFrame 6 6 bright)).
Proof.
  assert (0 < cols detector0) as H1 by (cbn; lia).
  assert (0 < rows detector0) as H2 by (cbn; lia).
  assert (4 < cols detector0 * rows detector0) as H3 by (cbn; lia).
  exact (conj H1 (conj H2 (conj H3 (conj eq_refl (conj eq_refl
    (conj centre_pixel_in_cell_4
      (cell_reads_in_range detector0 (uniformFrame 6 6 bright) 4 2 2
         H1 H2 H3 eq_refl eq_refl centre_pixel_in_cell_4))))))).
Defined.

Lemma cells_disjoint_witness :
  0 < cols detector0 ∧ (2, 2) ∈ cellPixels detector0 4
  ∧ (2, 2) ∈ cellPixels detector0 4 ∧ 4 = 4.
Proof.
  assert (0 < cols detector0) as H1 by (cbn; lia).
  exact (conj H1 (conj centre_pixel_in_cell_4 (conj centre_pixel_in_cell_4
    (cells_disjoint detector0 4 4 2 2 H1
       centre_pixel_in_cell_4 centre_pixel_in_cell_4)))).
Defined.



Lemma empty_cell_brightness_witness :
  (width (new narrowCanvas) < cols (new narrowCanvas)
   ∨ height (new narrowCanvas) < rows (new narrowCanvas))
  ∧ cellPixels (new narrowCanvas) 4 = []
  ∧ getRegionBrightness (new narrowCanvas) (uniformFrame 2 6 bright) 4 = 0%Qc.
Proof.
  assert (width (new narrowCanvas) < cols (new narrowCanvas)
          ∨ height (new narrowCanvas) < rows (new narrowCanvas)) as H
    by (left; cbn; lia).
  exact (conj H (empty_cell_brightness (new narrowCanvas) (uniformFrame 2 6 bright) 4 H)).
Defined.

Lemma spot_agrees_on_cell_4 x y k :
  (x, y) ∈ cellPixels detector0 4 → k < 3 →
  data (uniformFrame 6 6 bright) !! ((y * iwidth (uniformFrame 6 6 bright) + x) * 4 + k)
  = data spotFrame !! ((y * iwidth (uniformFrame 6 6 bright) + x) * 4 + k).
Proof.
  intros Hxy Hk. apply elem_of_cellPixels in Hxy. cbn in Hxy.
  assert ((x = 2 ∨ x = 3) ∧ (y = 2 ∨ y = 3)) as [[-> | ->] [-> | ->]] by lia;
    destruct k as [|[|[|k]]]; try lia; vm_compute; reflexivity.
Defined.

Lemma brightness_reads_cell_colours_witness :
  iwidth (uniformFrame 6 6 bright) = iwidth spotFrame
  ∧ uniformFrame 6 6 bright ≠ spotFrame
  ∧ getRegionBrightness detector0 (uniformFrame 6 6 bright) 4
    = getRegionBrightness detector0 spotFrame 4.
Proof.
  assert (uniformFrame 6 6 bright ≠ spotFrame) as Hne by (vm_compute; discriminate).
  exact (conj eq_refl (conj Hne
    (brightness_reads_cell_colours detector0 (uniformFrame 6 6 bright) spotFrame 4
       eq_refl spot_agrees_on_cell_4))).
Defined.




End MotionExtra.

(** * More on the synth drum engine *)

Module AudioExtra.
Import Audio AudioProps.

Local Open Scope nat_scope.

Lemma Qcle_plus_nonneg (t k : Qc) : (0 ≤ k)%Qc → (t ≤ t + k)%Qc.
Proof. intros H. qc_lra. Qed.



Ltac chain_ok_tac :=
  eexists _, _; split_and!;
    [reflexivity|by vm_compute|by vm_compute|by vm_compute|reflexivity|reflexivity
    |let H := fresh in intros ? H; cbn in H; first [discriminate H|injection H as <-; done]].

Lemma play_effect soundName s :
  gain_bound s → buffer_bound s →
  ∃ new, chainsOf (snd (play soundName s)) = chainsOf s ++ new
    ∧ Forall chain_ok new
    ∧ Forall (λ c, (now_of s ≤ cstart c)%Qc) new
    ∧ length new ≤ 4
    ∧ (soundName ∈ voices → audioContext (drums s) ≠ None → new ≠ []).
Proof.
  destruct s as [[[a|] [nb|] [g|]] con ist]; unfold gain_bound, buffer_bound; cbn;
    intros Hg Hb; try (exfalso; first [by apply Hg|by apply Hb]).
  2-5: exists []; unfold play; run_eff; split_and!; try done; [constructor..|cbn; lia].
  destruct a as [st t rate rc ch].
  unfold play, chainsOf, now_of. run_eff.
  destruct st; run_eff.
  all: repeat (match goal with
               | |- context [String.eqb ?n ?v] =>
                 destruct (String.eqb n v) eqn:?
               end;
        [cbn; rewrite <- ?app_assoc; eexists; split; [reflexivity|];
         split_and!;
         [repeat (constructor; [chain_ok_tac|]); constructor
         |repeat (constructor; [first [apply Qcle_refl|apply Qcle_plus_nonneg; by vm_compute]|]); constructor
         |cbn; lia
         |done]
        |]).
  all: cbn; exists []; rewrite app_nil_r; split_and!; [done|constructor|constructor|cbn; lia|].
  all: intros Hin _; exfalso; unfold voices in Hin;
    repeat (apply elem_of_cons in Hin as [->|Hin]; [cbn in *; congruence|]);
    by apply not_elem_of_nil in Hin.
Qed.

Lemma play_keeps soundName s :
  noiseBuffer (drums (snd (play soundName s))) = noiseBuffer (drums s)
  ∧ initStatus (snd (play soundName s)) = initStatus s
  ∧ (audioContext (drums (snd (play soundName s))) = None
     ↔ audioContext (drums s) = None).
Proof.
  destruct s as [[[a|] nb [g|]] con ist]; unfold play; run_eff; try done.
  all: destruct (state a); run_eff.
  all: repeat (match goal with
               | |- context [String.eqb ?n ?v] => destruct (String.eqb n v)
               end; [cbn; done|]); cbn; done.
Qed.

Lemma step_buffer_bound s e : buffer_bound s → buffer_bound (step s e).
Proof.
  intros H. destruct e as [st rate| |dt|name|v|]; cbn.
  - unfold buffer_bound, init. by destruct st.
  - unfold buffer_bound, init_resumed in *. cbn. rewrite fmap_None. done.
  - unfold buffer_bound, advance in *. cbn. rewrite fmap_None. done.
  - destruct (play_keeps name s) as (Hn & _ & Ha).
    unfold buffer_bound. rewrite Hn, Ha. done.
  - unfold buffer_bound, setVolume in *.
    destruct (masterGain (drums s)) eqn:E; cbn; done.
  - unfold buffer_bound, dispose in *.
    destruct (audioContext (drums s)) eqn:E; cbn; [|rewrite E; exact H].
    intros Hn. by destruct Hn.
Qed.

Lemma after_buffer_bound events : buffer_bound (after events).
Proof.
  unfold after. induction events as [|e events IH] using rev_ind.
  - unfold buffer_bound. cbn. congruence.
  - rewrite foldl_snoc. by apply step_buffer_bound.
Qed.

(** X13.  In every state the engine can reach, [play] only appends to the
    chains of the context: at most four new chains, each starting at or
    after the current time of the audio clock and stopping later, and at
    least one when the name is one of the nine voices and a context is
    bound. *)
Theorem play_appends (events : list Event) (soundName : string) :
  ∃ new,
    chainsOf (snd (play soundName (after events))) = chainsOf (after events) ++ new
    ∧ Forall (λ c, (now_of (after events) ≤ cstart c)%Qc ∧ (cstart c < cstop c)%Qc) new
    ∧ length new ≤ 4
    ∧ (soundName ∈ voices → audioContext (drums (after events)) ≠ None → new ≠ []).
Proof.
  destruct (play_effect soundName (after events)
              (after_gain_bound events) (after_buffer_bound events))
    as (new & Heq & Hok & Hnow & Hlen & Hne).
  exists new. split_and!; try done.
  apply Forall_forall. intros c Hc. rewrite Forall_forall in Hok, Hnow.
  split; [by apply Hnow|].
  destruct (Hok c Hc) as (level & over & _ & _ & _ & Hover & -> & _).
  qc_lra.
Qed.

(** X14.  In every state the engine can reach, every chain of the current
    context has a gain that decays from a level in (0.01, 1] to 0.01, a
    source that stops exactly when the decay ends, a cleanup that lists
    the source, every filter and the gain, and, when its source is a
    buffer source, a noise buffer to play. *)
Theorem chains_invariant (events : list Event) :
  Forall chain_ok (chainsOf (after events)).
Proof.
  unfold after. induction events as [|e events IH] using rev_ind.
  - constructor.
  - rewrite foldl_snoc. fold (after events) in *.
    destruct e as [st rate| |dt|name|v|]; cbn.
    + unfold chainsOf, init. destruct st; cbn; constructor.
    + revert IH. unfold chainsOf, init_resumed. cbn.
      by destruct (audioContext (drums (after events))).
    + revert IH. unfold chainsOf, advance. cbn.
      by destruct (audioContext (drums (after events))).
    + destruct (play_effect name (after events)
                  (after_gain_bound events) (after_buffer_bound events))
        as (new & -> & Hok & _). by apply Forall_app.
    + revert IH. unfold chainsOf, setVolume.
      by destruct (masterGain (drums (after events))).
    + unfold chainsOf. rewrite dispose_unbinds. constructor.
Qed.

(** X15.  [setVolume(value)] touches no chain; without a master gain it
    does nothing, with one it leaves the gain at [value] clamped to
    [0, 1]. *)
Theorem setVolume_clamps (value : Qc) (s : Session) :
  chainsOf (setVolume value s) = chainsOf s
  ∧ (masterGain (drums s) = None → setVolume value s = s)
  ∧ (masterGain (drums s) ≠ None →
     ∃ g, masterGain (drums (setVolume value s)) = Some g
          ∧ (0 ≤ g ≤ 1)%Qc
          ∧ ((0 ≤ value ≤ 1)%Qc → g = value)
          ∧ ((value < 0)%Qc → g = 0%Qc)
          ∧ ((1 < value)%Qc → g = 1%Qc)).
Proof.
  unfold setVolume, chainsOf. destruct (masterGain (drums s)) as [g0|] eqn:E.
  2:{ split_and!; try done. }
  split_and!; [done|done|]. intros _. cbn. eexists. split; [reflexivity|].
  unfold Qc_max, Qc_min.
  repeat (destruct (decide _)); split_and!; try done; intros; try qc_lra.
  all: try (apply Qcle_antisym; qc_lra).
  all: try (exfalso; qc_lra).
Qed.

Lemma step_not_init_unbound s e :
  not_init e → audioContext (drums s) = None →
  audioContext (drums (step s e)) = None ∧ console (step s e) = console s.
Proof.
  intros He Hs. destruct e as [st rate| |dt|name|v|]; cbn in *.
  - done.
  - by rewrite Hs.
  - by rewrite Hs.
  - by rewrite play_unbound.
  - unfold setVolume. by destruct (masterGain (drums s)).
  - unfold dispose. by rewrite Hs.
Qed.

(** X16.  After [dispose()], as long as [init()] is not called again,
    nothing that happens binds a context or writes to the console, and
    every [play] is a no-op. *)
Theorem silent_after_dispose (s : Session) (events : list Event) :
  Forall not_init events →
  audioContext (drums (foldl step (dispose s) events)) = None
  ∧ console (foldl step (dispose s) events) = console s
  ∧ ∀ soundName,
      play soundName (foldl step (dispose s) events)
      = (Normal tt, foldl step (dispose s) events).
Proof.
  intros Hall.
  assert (audioContext (drums (foldl step (dispose s) events)) = None
          ∧ console (foldl step (dispose s) events) = console s) as [Ha Hc].
  { induction events as [|e events IH] using rev_ind.
    - split; [apply dispose_unbinds|].
      unfold dispose. by destruct (audioContext (drums s)).
    - apply Forall_app in Hall as [Hall He]. apply Forall_cons in He as [He _].
      rewrite foldl_snoc. destruct (IH Hall) as [Ha Hc].
      destruct (step_not_init_unbound _ e He Ha) as [? ?]. split; congruence. }
  split_and!; [done|done|]. intros name. by apply play_unbound.
Qed.

(** X17.  In every state the engine can reach and for every name, known
    or not, [play] calls [resume()] once on a context that is suspended and
    not at all on a context in another state. *)
Theorem play_resumes_suspended (events : list Event) (soundName : string) :
  resumesOf (snd (play soundName (after events)))
  = match audioContext (drums (after events)) with
    | Some a => match state a with
                | suspended => S (resumeCalls a)
                | _ => resumeCalls a
                end
    | None => 0
    end.
Proof.
  pose proof (after_gain_bound events) as Hg.
  destruct (after events) as [[[a|] nb [g|]] con ist];
    unfold gain_bound, resumesOf in *; cbn in *;
    try (exfalso; by apply Hg); unfold play; run_eff; try done.
  destruct (state a); run_eff.
  all: repeat (match goal with
               | |- context [String.eqb ?n ?v] => destruct (String.eqb n v)
               end; [cbn; done|]); cbn; done.
Qed.

Lemma silent_after_dispose_witness :
  Forall not_init [CallPlay "kick"; CallSetVolume 1%Qc; ContextResumed]
  ∧ audioContext (drums (foldl step (dispose (after [CallInit running 44100]))
       [CallPlay "kick"; CallSetVolume 1%Qc; ContextResumed])) = None.
Proof.
  assert (Forall not_init [CallPlay "kick"; CallSetVolume 1%Qc; ContextResumed]) as H
    by (repeat constructor).
  exact (conj H (proj1 (silent_after_dispose _ _ H))).
Defined.

(** ** The noise buffer *)

Lemma Qcle_plus_le (t k m : Qc) : (k ≤ m)%Qc → (t + k ≤ t + m)%Qc.
Proof. intros H. qc_lra. Qed.

Lemma play_noise soundName s :
  gain_bound s → buffer_made s →
  ∃ new, chainsOf (snd (play soundName s)) = chainsOf s ++ new
    ∧ Forall (noise_fits s) new.
Proof.
  destruct s as [[[a|] nb [g|]] con ist]; unfold gain_bound, buffer_made; cbn;
    intros Hg Hb; try (exfalso; by apply Hg).
  2-3: exists []; unfold play; run_eff; split; [done|constructor].
  specialize (Hb a eq_refl). subst nb.
  destruct a as [st t rate rc ch].
  unfold play, chainsOf. run_eff.
  destruct st; run_eff.
  all: repeat (match goal with
               | |- context [String.eqb ?n ?v] =>
                 destruct (String.eqb n v) eqn:?
               end;
        [cbn; rewrite <- ?app_assoc; eexists; split; [reflexivity|];
         repeat (constructor;
           [let H := fresh in intros ? H; cbn in H;
            first [discriminate H
                  |injection H as <-; eexists; split_and!;
                   [reflexivity|reflexivity|cbn; apply Qcle_plus_le; by vm_compute]]|]);
         constructor
        |]).
  all: cbn; exists []; rewrite app_nil_r; split; [done|constructor].
Qed.

Lemma play_rate soundName s a :
  audioContext (drums s) = Some a →
  ∃ a', audioContext (drums (snd (play soundName s))) = Some a'
        ∧ sampleRate a' = sampleRate a.
Proof.
  destruct s as [[[a0|] nb [g|]] con ist]; cbn; intros [= <-].
  all: unfold play; run_eff; destruct (state a0); run_eff.
  all: repeat (match goal with
               | |- context [String.eqb ?n ?v] => destruct (String.eqb n v)
               end; [cbn; eexists; split; reflexivity|]);
    cbn; eexists; split; reflexivity.
Qed.

Lemma noise_fits_rate s s' c :
  (∀ a, audioContext (drums s) = Some a →
     ∃ a', audioContext (drums s') = Some a' ∧ sampleRate a' = sampleRate a) →
  noise_fits s c → noise_fits s' c.
Proof.
  intros H Hc b Hb. destruct (Hc b Hb) as (a & Ha & -> & Hle).
  destruct (H a Ha) as (a' & Ha' & <-). by exists a'.
Qed.

Lemma buffer_made_rate s s' :
  (∀ a', audioContext (drums s') = Some a' →
     ∃ a, audioContext (drums s) = Some a ∧ sampleRate a' = sampleRate a) →
  noiseBuffer (drums s') = noiseBuffer (drums s) →
  buffer_made s → buffer_made s'.
Proof.
  intros H Hn Hb a' Ha'. destruct (H a' Ha') as (a & Ha & ->).
  rewrite Hn. by apply Hb.
Qed.

Lemma step_noise s e :
  gain_bound s → buffer_made s → Forall (noise_fits s) (chainsOf s) →
  buffer_made (step s e) ∧ Forall (noise_fits (step s e)) (chainsOf (step s e)).
Proof.
  intros Hg Hb Hc. destruct e as [st rate| |dt|name|v|]; cbn.
  - unfold buffer_made, chainsOf, init.
    destruct st; cbn; (split; [by intros a [= <-]|constructor]).
  - assert (∀ a, audioContext (drums s) = Some a →
              ∃ a', audioContext (drums (init_resumed s)) = Some a'
                    ∧ sampleRate a' = sampleRate a) as Hr.
    { intros a Ha. unfold init_resumed. cbn. rewrite Ha. by eexists. }
    split.
    + intros a' Ha'. unfold init_resumed in *. cbn in *.
      apply fmap_Some in Ha' as (a & Ha & ->). cbn. by apply Hb.
    + assert (chainsOf (init_resumed s) = chainsOf s) as ->.
      { unfold chainsOf, init_resumed. cbn.
        by destruct (audioContext (drums s)). }
      eapply Forall_impl; [exact Hc|]. intros c. by apply noise_fits_rate.
  - assert (∀ a, audioContext (drums s) = Some a →
              ∃ a', audioContext (drums (advance dt s)) = Some a'
                    ∧ sampleRate a' = sampleRate a) as Hr.
    { intros a Ha. unfold advance. cbn. rewrite Ha. by eexists. }
    split.
    + intros a' Ha'. unfold advance in *. cbn in *.
      apply fmap_Some in Ha' as (a & Ha & ->). cbn. by apply Hb.
    + assert (chainsOf (advance dt s) = chainsOf s) as ->.
      { unfold chainsOf, advance. cbn.
        by destruct (audioContext (drums s)). }
      eapply Forall_impl; [exact Hc|]. intros c. by apply noise_fits_rate.
  - destruct (play_noise name s Hg Hb) as (new & -> & Hnew).
    destruct (play_keeps name s) as (Hn & _ & Hnone).
    split.
    + intros a' Ha'.
      destruct (audioContext (drums s)) as [a|] eqn:Ea.
      * destruct (play_rate name s a Ea) as (a'' & Ha'' & Hrate).
        rewrite Ha' in Ha''. injection Ha'' as <-.
        rewrite Hn, Hrate. by apply Hb.
      * rewrite (proj2 Hnone eq_refl) in Ha'. done.
    + eapply Forall_impl; [apply Forall_app; exact (conj Hc Hnew)|].
      intros c. apply noise_fits_rate.
      intros a Ha. by apply play_rate.
  - assert (audioContext (drums (setVolume v s)) = audioContext (drums s)
            ∧ noiseBuffer (drums (setVolume v s)) = noiseBuffer (drums s)) as [Ha Hn].
    { unfold setVolume. by destruct (masterGain (drums s)). }
    split.
    + intros a' Ha'. rewrite Hn. apply Hb. by rewrite <- Ha.
    + assert (chainsOf (setVolume v s) = chainsOf s) as ->
        by (unfold chainsOf; by rewrite Ha).
      eapply Forall_impl; [exact Hc|]. intros c. apply noise_fits_rate.
      intros a Ea. exists a. by rewrite Ha.
  - split.
    + intros a Ha. by rewrite dispose_unbinds in Ha.
    + unfold chainsOf. rewrite dispose_unbinds. constructor.
Qed.

(** X21.  In every state the engine can reach, every chain of the current
    context whose source is a buffer source plays the buffer that [init]
    made for that context, two seconds of noise at the sample rate of the
    context, and stops at most 1.5 s after it starts: no voice runs past
    the end of the noise. *)
Theorem noise_never_runs_out (events : list Event) :
  Forall (noise_fits (after events)) (chainsOf (after events)).
Proof.
  enough (buffer_made (after events)
          ∧ Forall (noise_fits (after events)) (chainsOf (after events))) as [_ H]
    by exact H.
  unfold after. induction events as [|e events IH] using rev_ind.
  - split; [intros a [=]|constructor].
  - rewrite foldl_snoc. fold (after events) in *. destruct IH as [Hb Hc].
    by apply step_noise; [apply after_gain_bound|..].
Qed.

End AudioExtra.

(** * Properties of the controller *)

Module ControllerProps.
Import Controller.

Local Open Scope nat_scope.

(** ** The table from cells to voices *)

Lemma soundMap_known i :
  i < 9 → ∃ soundName, soundMap !! i = Some soundName ∧ soundName ∈ Audio.voices.
Proof.
  intros Hi. do 9 (destruct i as [|i]; [eexists; split; [reflexivity|];
    unfold Audio.voices;
    repeat first [apply list_elem_of_here|apply list_elem_of_further]|]).
  lia.
Qed.

Lemma lookupKey_range key index : lookupKey keyMap key = Some index → index < 9.
Proof.
  unfold keyMap. cbn.
  repeat (destruct (String.eqb key _); [intros [= <-]; lia|]). done.
Qed.

(** ** What the engine does for a voice of the table *)

Lemma play_known soundName s :
  soundName ∈ Audio.voices → Audio.gain_bound s →
  fst (Audio.play soundName s) = Normal tt
  ∧ Audio.console (snd (Audio.play soundName s)) = Audio.console s
  ∧ Audio.gain_bound (snd (Audio.play soundName s)).
Proof.
  intros Hin Hg.
  destruct (AudioProps.play_completes soundName s Hg) as (Hr & Hm & Ha).
  split_and!; [done| |unfold Audio.gain_bound; by rewrite Hm, Ha].
  assert (∃ v, String.eqb soundName v = true ∧ v ∈ Audio.voices) as (v & Hv & Hvin).
  { exists soundName. by rewrite String.eqb_refl. }
  apply String.eqb_eq in Hv as ->. clear Hin Hr Hm Ha Hg.
  unfold Audio.voices in Hvin.
  destruct s as [[[a|] nb mg] con ist]; unfold Audio.play; Audio.run_eff; [|done].
  repeat (apply elem_of_cons in Hvin as [->|Hvin];
    [destruct (Audio.state a), mg; Audio.run_eff; done|]).
  by apply not_elem_of_nil in Hvin.
Qed.

(** ** Every call of [detect] returns cells of the grid *)

Lemma detect_returns p d :
  ∃ triggered, fst (Motion.detect p d) = Normal triggered
    ∧ Forall (λ i, i < Motion.cellCount d) triggered
    ∧ Motion.cellCount (snd (Motion.detect p d)) = Motion.cellCount d.
Proof.
  destruct (MotionProps.detect_cases p d) as [Hskip|[img Hp]].
  - destruct (MotionProps.detect_skip p d Hskip) as (-> & Hcfg & _).
    exists []. split_and!; [done|constructor|apply Hcfg].
  - destruct (MotionProps.detect_loop_inv p d img Hp) as (d1 & -> & _ & _ & Hcfg & _).
    eexists. split_and!; [done| |apply Hcfg].
    apply Forall_forall. intros i Hi.
    apply list_elem_of_filter in Hi as [_ Hi]. apply elem_of_seq in Hi. lia.
Qed.

(** ** The handlers on a healthy application *)

Lemma classList_add_ok index l :
  index < 9 → Forall (λ i, i < 9) l → NoDup l →
  Forall (λ i, i < 9) (classList_add index l) ∧ NoDup (classList_add index l).
Proof.
  intros Hi Hl Hnd. unfold classList_add. destruct (decide (index ∈ l)); [done|].
  split.
  - apply Forall_app. split; [done|]. by constructor.
  - apply NoDup_app. split_and!; [done| |apply NoDup_singleton].
    intros x Hx Hx'. apply list_elem_of_singleton in Hx'. by subst.
Qed.

Lemma triggerCell_healthy index a :
  healthy a → index < 9 →
  fst (triggerCell index a) = Normal tt
  ∧ healthy (snd (triggerCell index a))
  ∧ isRunning (snd (triggerCell index a)) = isRunning a
  ∧ drums (snd (triggerCell index a)) = drums a
  ∧ detector (snd (triggerCell index a)) = detector a
  ∧ pendingFrame (snd (triggerCell index a)) = pendingFrame a.
Proof.
  intros (Hc & He & Hcon & Hg & Hr & Hd & Hf & Hnd) Hi.
  destruct (soundMap_known index Hi) as (name & Hname & Hin).
  destruct (classList_add_ok index (flashing a) Hi Hf Hnd) as [Hf' Hnd'].
  unfold triggerCell.
  unfold mbind, Eff_bind, eff_bind, get_state, mret, Eff_ret, eff_ret, modify, throw.
  cbv zeta. rewrite Hname. cbn [default].
  destruct (drums a) eqn:Edr.
  - destruct (play_known name (engine a) Hin (Hg eq_refl)) as (Hpr & Hpc & Hpg).
    unfold on_engine. destruct (Audio.play name (engine a)) as [r e] eqn:Ep.
    cbn in Hpr, Hpc, Hpg. subst r. cbn. rewrite ?Ep. cbn.
    rewrite decide_True by lia. cbn.
    split_and!; try done. unfold healthy. cbn.
    split_and!; try done. by rewrite Hpc.
  - cbn. rewrite decide_True by lia. cbn.
    split_and!; try done. unfold healthy. cbn. rewrite Edr.
    split_and!; done.
Qed.

Lemma forEach_healthy l a :
  healthy a → Forall (λ i, i < 9) l →
  fst (forEach triggerCell l a) = Normal tt
  ∧ healthy (snd (forEach triggerCell l a))
  ∧ isRunning (snd (forEach triggerCell l a)) = isRunning a
  ∧ drums (snd (forEach triggerCell l a)) = drums a
  ∧ detector (snd (forEach triggerCell l a)) = detector a
  ∧ pendingFrame (snd (forEach triggerCell l a)) = pendingFrame a.
Proof.
  intros Ha Hl. revert a Ha. induction Hl as [|i l Hi Hl IH]; intros a Ha.
  - cbn. done.
  - destruct (triggerCell_healthy i a Ha Hi) as (Hr & Hh & H1 & H2 & H3 & H4).
    cbn [forEach]. unfold mbind, Eff_bind, eff_bind.
    destruct (triggerCell i a) as [r a1]. cbn in *. subst r.
    destruct (IH a1 Hh) as (Hr' & Hh' & H1' & H2' & H3' & H4').
    split_and!; congruence.
Qed.

Lemma loop_healthy p a :
  healthy a → fst (loop p a) = Normal tt ∧ healthy (snd (loop p a)).
Proof.
  intros Ha. unfold loop.
  unfold mbind, Eff_bind, eff_bind, get_state, mret, Eff_ret, eff_ret.
  destruct (isRunning a) eqn:Er; cbn; [|done].
  pose proof Ha as (Hc & He & Hcon & Hg & Hr & Hd & Hf & Hnd).
  destruct (detector a) as [d|] eqn:Ed; [|by destruct (Hr Er)].
  destruct (detect_returns p d) as (t & Ht & Hall & Hn).
  unfold try_catch, modify. rewrite Ed.
  destruct (Motion.detect p d) as [r d'] eqn:Edet. cbn in Ht, Hn. subst r.
  cbn.
  assert (healthy (set_detector (Some d') a)) as Ha'.
  { unfold healthy. cbn. split_and!; try done.
    intros d0 [= <-]. rewrite Hn. by apply Hd. }
  rewrite (Hd d eq_refl) in Hall.
  destruct (forEach_healthy t _ Ha' Hall) as (Hfr & Hfh & _).
  destruct (forEach triggerCell t (set_detector (Some d') a)) as [r a2].
  cbn in *. subst r. cbn. split; [done|].
  destruct Hfh as (?&?&?&?&?&?&?&?). unfold healthy. cbn. split_and!; done.
Qed.

Lemma handle_healthy e a :
  healthy a → on_page 9 e →
  fst (handle e a) = Normal tt ∧ healthy (snd (handle e a)).
Proof.
  intros Ha He. destruct e as [p|key|index|index|value|value|];
    cbn [handle on_page] in *; unfold modify; cbn [fst snd].
  - by apply loop_healthy.
  - unfold keydown.
    unfold mbind, Eff_bind, eff_bind, get_state, mret, Eff_ret, eff_ret.
    destruct (isRunning a); cbn [negb]; [|cbn; done].
    destruct (lookupKey keyMap key) as [index|] eqn:Ek; [|cbn; done].
    apply lookupKey_range in Ek.
    by destruct (triggerCell_healthy index a Ha Ek) as (? & ? & _).
  - by destruct (triggerCell_healthy index a Ha He) as (? & ? & _).
  - split; [done|]. destruct Ha as (?&?&?&?&?&?&Hf&Hnd).
    unfold healthy, animationend. cbn. split_and!; try done.
    + apply Forall_forall. intros i Hi. apply list_elem_of_filter in Hi as [_ Hi].
      rewrite Forall_forall in Hf. by apply Hf.
    + by apply NoDup_filter.
  - split; [done|]. destruct Ha as (?&?&?&?&Hr&Hd&?&?).
    unfold healthy, on_detector. cbn. split_and!; try done.
    + intros Hrun. rewrite fmap_None. by apply Hr.
    + intros d0 Hd0. apply fmap_Some in Hd0 as (d1 & Hd1 & ->). cbn. by apply Hd.
  - split; [done|]. destruct Ha as (?&?&?&?&Hr&Hd&?&?).
    unfold healthy, on_detector. cbn. split_and!; try done.
    + intros Hrun. rewrite fmap_None. by apply Hr.
    + intros d0 Hd0. apply fmap_Some in Hd0 as (d1 & Hd1 & ->). cbn. by apply Hd.
  - split; [done|]. destruct Ha as (?&?&Hcon&?&?&?&?&?).
    unfold healthy, stop. destruct (drums a); cbn; split_and!; try done.
    unfold Audio.dispose. by destruct (Audio.audioContext (Audio.drums (engine a))).
Qed.

Lemma started_healthy st rate sensitivity cooldown v :
  healthy (started st rate sensitivity cooldown v 9).
Proof.
  unfold healthy, started. cbn. split_and!; try done.
  - by destruct st.
  - intros _. unfold Audio.gain_bound. destruct st; cbn; done.
  - intros d [= <-]. reflexivity.
  - constructor.
Qed.

(** X18.  On a page of nine cells, from a successful start and through
    every sequence of animation frames, key presses, clicks on cells,
    ends of animations, slider moves and stops, [loop] never writes an
    error, the engine never warns of an unknown sound, the flashing cells
    are cells of the page, each once, and the handler of the next event
    returns without throwing. *)
Theorem application_never_errs (st : Audio.ContextState) (rate : N)
    (sensitivity cooldown : Z) (v : Motion.Video) (events : list Event) :
  Forall (on_page 9) events →
  loopErrors (foldl step (started st rate sensitivity cooldown v 9) events) = []
  ∧ Audio.console (engine (foldl step (started st rate sensitivity cooldown v 9) events))
    = []
  ∧ Forall (λ i, i < 9)
      (flashing (foldl step (started st rate sensitivity cooldown v 9) events))
  ∧ NoDup (flashing (foldl step (started st rate sensitivity cooldown v 9) events))
  ∧ ∀ e, on_page 9 e →
      fst (handle e (foldl step (started st rate sensitivity cooldown v 9) events))
      = Normal tt.
Proof.
  intros Hall.
  assert (healthy (foldl step (started st rate sensitivity cooldown v 9) events)) as Hh.
  { induction events as [|e events IH] using rev_ind.
    - apply started_healthy.
    - apply Forall_app in Hall as [Hall He]. apply Forall_cons in He as [He _].
      rewrite foldl_snoc. unfold step at 1.
      by apply handle_healthy; [apply IH|]. }
  pose proof Hh as (?&?&?&?&?&?&?&?).
  split_and!; try done. intros e He. by apply handle_healthy.
Qed.

(** ** After [stop()] *)

Lemma stopped_step a e :
  drums a = false → isRunning a = false → pendingFrame a = false →
  drums (step a e) = false ∧ isRunning (step a e) = false
  ∧ pendingFrame (step a e) = false
  ∧ engine (step a e) = engine a ∧ loopErrors (step a e) = loopErrors a.
Proof.
  intros Hd Hr Hp. unfold step.
  destruct e as [p|key|index|index|value|value|]; cbn.
  - unfold loop. unfold mbind, Eff_bind, eff_bind, get_state, mret, Eff_ret, eff_ret.
    rewrite Hr. cbn. done.
  - unfold keydown. unfold mbind, Eff_bind, eff_bind, get_state, mret, Eff_ret, eff_ret.
    rewrite Hr. cbn. done.
  - unfold triggerCell.
    unfold mbind, Eff_bind, eff_bind, get_state, mret, Eff_ret, eff_ret, modify, throw.
    rewrite Hd. cbn. destruct (decide (index < cells a)); cbn; done.
  - done.
  - done.
  - done.
  - unfold stop. rewrite Hd. cbn. done.
Qed.

(** X19.  After [stop()], whatever events follow, the application holds no
    engine, the loop neither runs nor asks for a frame, [loop] writes no
    error, and the engine that was held stays as [dispose()] left it,
    without a context. *)
Theorem stop_silences (a : NeonDrum) (events : list Event) :
  drums (foldl step (stop a) events) = false
  ∧ isRunning (foldl step (stop a) events) = false
  ∧ pendingFrame (foldl step (stop a) events) = false
  ∧ loopErrors (foldl step (stop a) events) = loopErrors a
  ∧ engine (foldl step (stop a) events)
    = (if drums a then Audio.dispose (engine a) else engine a)
  ∧ (drums a = true →
     Audio.audioContext (Audio.drums (engine (foldl step (stop a) events))) = None).
Proof.
  assert (drums (foldl step (stop a) events) = false
    ∧ isRunning (foldl step (stop a) events) = false
    ∧ pendingFrame (foldl step (stop a) events) = false
    ∧ engine (foldl step (stop a) events) = engine (stop a)
    ∧ loopErrors (foldl step (stop a) events) = loopErrors (stop a))
    as (H1 & H2 & H3 & H4 & H5).
  { induction events as [|e events IH] using rev_ind.
    - cbn. unfold stop. destruct (drums a) eqn:E; cbn; done.
    - rewrite foldl_snoc. destruct IH as (H1 & H2 & H3 & H4 & H5).
      destruct (stopped_step _ e H1 H2 H3) as (?&?&?&?&?).
      split_and!; congruence. }
  assert (engine (stop a) = (if drums a then Audio.dispose (engine a) else engine a)) as He.
  { unfold stop. by destruct (drums a). }
  assert (loopErrors (stop a) = loopErrors a) as Hl.
  { unfold stop. by destruct (drums a). }
  split_and!; try congruence.
  intros Hd. rewrite H4, He, Hd. apply AudioProps.dispose_unbinds.
Qed.

(** ** A cell outside the table and the page *)

(** X20.  [triggerCell] for an index outside the table of sounds and
    outside the page throws a [TypeError] and flashes nothing; it builds no
    chain, and an application that holds an engine with a bound context
    has warned [Unknown sound: undefined] before. *)
Theorem triggerCell_outside (index : nat) (a : NeonDrum) :
  9 ≤ index → cells a ≤ index →
  fst (triggerCell index a) = Thrown TypeError
  ∧ flashing (snd (triggerCell index a)) = flashing a
  ∧ Audio.chainsOf (engine (snd (triggerCell index a))) = Audio.chainsOf (engine a)
  ∧ (drums a = true → Audio.audioContext (Audio.drums (engine a)) ≠ None →
     Audio.console (engine (snd (triggerCell index a)))
     = Audio.console (engine a) ++ ["Unknown sound: undefined"]%string).
Proof.
  intros H9 Hc.
  assert (soundMap !! index = None) as Hnone by (apply lookup_ge_None; cbn; lia).
  assert ("undefined"%string ∉ Audio.voices) as Hun.
  { unfold Audio.voices. intros Hin.
    repeat (apply elem_of_cons in Hin as [Hin|Hin]; [discriminate Hin|]).
    by apply not_elem_of_nil in Hin. }
  destruct (AudioProps.play_unknown "undefined" (engine a) Hun) as (Hch & Hcon & _).
  unfold triggerCell.
  unfold mbind, Eff_bind, eff_bind, get_state, mret, Eff_ret, eff_ret, modify, throw.
  cbv zeta. rewrite Hnone. cbn [default].
  destruct (drums a) eqn:Edr.
  - unfold on_engine.
    assert (fst (Audio.play "undefined" (engine a)) = Normal tt) as Hr.
    { destruct (engine a) as [[[ac|] nb mg] con ist]; unfold Audio.play;
        Audio.run_eff; [|done]. destruct (Audio.state ac); Audio.run_eff; done. }
    destruct (Audio.play "undefined" (engine a)) as [r e]. cbn in *. subst r.
    cbn. rewrite decide_False by lia. cbn. split_and!; done.
  - cbn. rewrite decide_False by lia. cbn. split_and!; done.
Qed.

Lemma application_never_errs_witness :
  Forall (on_page 9)
    [Frame Scenario.tick_wide; KeyDown "5"; Click 3; AnimationEnd 3; Stop; Click 2]
  ∧ loopErrors (foldl step (started Audio.suspended 44100 20 250 Scenario.webcam 9)
      [Frame Scenario.tick_wide; KeyDown "5"; Click 3; AnimationEnd 3; Stop; Click 2])
    = [].
Proof.
  assert (Forall (on_page 9)
    [Frame Scenario.tick_wide; KeyDown "5"; Click 3; AnimationEnd 3; Stop; Click 2]) as H
    by (repeat constructor; cbn; lia).
  exact (conj H (proj1 (application_never_errs Audio.suspended 44100 20 250
                          Scenario.webcam _ H))).
Defined.

Lemma triggerCell_outside_witness :
  9 ≤ 9 ∧ cells (started Audio.running 44100 20 250 Scenario.webcam 9) ≤ 9
  ∧ fst (triggerCell 9 (started Audio.running 44100 20 250 Scenario.webcam 9))
    = Thrown TypeError.
Proof.
  assert (9 ≤ 9) as H1 by lia.
  assert (cells (started Audio.running 44100 20 250 Scenario.webcam 9) ≤ 9) as H2
    by (cbn; lia).
  exact (conj H1 (conj H2 (proj1 (triggerCell_outside 9 _ H1 H2)))).
Defined.

(** ** What one frame does *)

Lemma play_known_adds soundName s :
  soundName ∈ Audio.voices → Audio.gain_bound s →
  Audio.audioContext (Audio.drums s) ≠ None →
  length (Audio.chainsOf s) < length (Audio.chainsOf (snd (Audio.play soundName s)))
  ∧ Audio.audioContext (Audio.drums (snd (Audio.play soundName s))) ≠ None.
Proof.
  intros Hin Hg Hctx.
  destruct s as [[[a|] nb [mg|]] con ist]; [| |done..].
  2:{ exfalso. by apply Hg. }
  clear Hg Hctx. unfold Audio.voices in Hin.
  unfold Audio.play, Audio.chainsOf; Audio.run_eff.
  repeat (apply elem_of_cons in Hin as [->|Hin];
    [destruct (Audio.state a); Audio.run_eff; rewrite ?length_app; cbn; (split; [lia|done])|]).
  by apply not_elem_of_nil in Hin.
Qed.

Lemma elem_of_classList_add i index l :
  i ∈ classList_add index l ↔ i ∈ l ∨ i = index.
Proof.
  unfold classList_add. destruct (decide (index ∈ l)) as [Hin|Hin].
  - split; [by left|]. intros [H| ->]; done.
  - rewrite elem_of_app, list_elem_of_singleton. done.
Qed.

Lemma triggerCell_effect index a :
  healthy a → index < 9 →
  (∀ i, i ∈ flashing (snd (triggerCell index a)) ↔ i ∈ flashing a ∨ i = index)
  ∧ (drums a = true → Audio.audioContext (Audio.drums (engine a)) ≠ None →
     length (Audio.chainsOf (engine a))
       < length (Audio.chainsOf (engine (snd (triggerCell index a))))
     ∧ Audio.audioContext (Audio.drums (engine (snd (triggerCell index a)))) ≠ None).
Proof.
  intros (Hc & He & Hcon & Hg & Hr & Hd & Hf & Hnd) Hi.
  destruct (soundMap_known index Hi) as (name & Hname & Hin).
  unfold triggerCell.
  unfold mbind, Eff_bind, eff_bind, get_state, mret, Eff_ret, eff_ret, modify, throw.
  cbv zeta. rewrite Hname. cbn [default].
  destruct (drums a) eqn:Edr.
  - destruct (play_known name (engine a) Hin (Hg eq_refl)) as (Hpr & _ & _).
    pose proof (play_known_adds name (engine a) Hin (Hg eq_refl)) as Hadd.
    unfold on_engine. destruct (Audio.play name (engine a)) as [r e] eqn:Ep.
    cbn in Hpr, Hadd. subst r. cbn. rewrite ?Ep. cbn.
    rewrite decide_True by lia. cbn.
    split; [intros i; apply elem_of_classList_add|].
    intros _ Hctx. by apply Hadd.
  - cbn. rewrite decide_True by lia. cbn.
    split; [intros i; apply elem_of_classList_add|done].
Qed.

Lemma forEach_effect l a :
  healthy a → Forall (λ i, i < 9) l →
  (∀ i, i ∈ flashing (snd (forEach triggerCell l a)) ↔ i ∈ flashing a ∨ i ∈ l)
  ∧ (drums a = true → Audio.audioContext (Audio.drums (engine a)) ≠ None →
     length (Audio.chainsOf (engine a)) + length l
       ≤ length (Audio.chainsOf (engine (snd (forEach triggerCell l a))))
     ∧ Audio.audioContext (Audio.drums (engine (snd (forEach triggerCell l a)))) ≠ None).
Proof.
  intros Ha Hl. revert a Ha. induction Hl as [|j l Hj Hl IH]; intros a Ha.
  - cbn. split; [intros i; rewrite elem_of_nil; tauto|]. intros _ Hctx. split; [lia|done].
  - destruct (triggerCell_healthy j a Ha Hj) as (Hr & Hh & _ & Hdr & _).
    destruct (triggerCell_effect j a Ha Hj) as (Hfl & Hch).
    cbn [forEach]. unfold mbind, Eff_bind, eff_bind.
    destruct (triggerCell j a) as [r a1]. cbn in Hr, Hh, Hdr, Hfl, Hch. subst r.
    destruct (IH a1 Hh) as (Hfl' & Hch').
    split.
    + intros i. rewrite Hfl', Hfl, elem_of_cons. tauto.
    + intros Edr Hctx. destruct (Hch Edr Hctx) as [Hlt Hctx1].
      rewrite <- Hdr in Edr. destruct (Hch' Edr Hctx1) as [Hle Hctx2].
      split; [cbn [length]; lia|done].
Qed.

(** X22.  In an application that no error has touched and whose loop is
    running, one animation frame hands the frame to the detector, asks for
    the next frame, makes the cells that [detect] reported flash beside
    those that flashed already, and, with an engine whose context is
    bound, builds at least one chain of nodes for each reported cell. *)
Theorem frame_plays_triggered (p : Motion.Platform) (a : NeonDrum)
    (d : Motion.MotionDetector) :
  healthy a → isRunning a = true → detector a = Some d →
  detector (step a (Frame p)) = Some (snd (Motion.detect p d))
  ∧ pendingFrame (step a (Frame p)) = true
  ∧ (∀ i, i ∈ flashing (step a (Frame p))
          ↔ i ∈ flashing a ∨ i ∈ Motion.triggers (fst (Motion.detect p d)))
  ∧ (drums a = true → Audio.audioContext (Audio.drums (engine a)) ≠ None →
     length (Audio.chainsOf (engine a))
       + length (Motion.triggers (fst (Motion.detect p d)))
     ≤ length (Audio.chainsOf (engine (step a (Frame p))))).
Proof.
  intros Ha Er Ed. unfold step. cbn [handle]. unfold loop.
  unfold mbind, Eff_bind, eff_bind, get_state, mret, Eff_ret, eff_ret.
  rewrite Er. cbn [negb].
  pose proof Ha as (Hc & He & Hcon & Hg & Hr & Hd & Hf & Hnd).
  destruct (detect_returns p d) as (t & Ht & Hall & Hn).
  unfold try_catch, modify. rewrite Ed.
  destruct (Motion.detect p d) as [r d'] eqn:Edet. cbn in Ht, Hn. subst r.
  cbn.
  assert (healthy (set_detector (Some d') a)) as Ha'.
  { unfold healthy. cbn. split_and!; try done.
    intros d0 [= <-]. rewrite Hn. by apply Hd. }
  rewrite (Hd d Ed) in Hall.
  destruct (forEach_healthy t _ Ha' Hall) as (Hfr & _ & _ & _ & Hdet & _).
  destruct (forEach_effect t _ Ha' Hall) as (Hfl & Hch).
  destruct (forEach triggerCell t (set_detector (Some d') a)) as [r a2].
  cbn in *. subst r. cbn. split_and!; try done.
  intros Edr Hctx. by apply Hch.
Qed.

Lemma frame_plays_triggered_witness :
  healthy (started Audio.running 44100 20 250 Scenario.webcam 9)
  ∧ pendingFrame (step (started Audio.running 44100 20 250 Scenario.webcam 9)
                    (Frame Scenario.tick_wide)) = true.
Proof.
  pose proof (started_healthy Audio.running 44100 20 250 Scenario.webcam) as H.
  exact (conj H (proj1 (proj2
    (frame_plays_triggered Scenario.tick_wide _ _ H eq_refl eq_refl)))).
Defined.

End ControllerProps.
